(** * Custom_modules.ipynb: custom layers on top of torch.nn.Module

    A shallow embedding of the notebook's three code units: the [Linear]
    layer (cell 1), the linear-regression training loop (cells 3 and 5) and
    the [MyLambda] wrapper layer (cell 13).

    Tensors are a shape with row-major data over an abstract scalar type
    (the framework's float32): the scalar operations are the fields of the
    class [Scalar] and no algebraic law is assumed of them.  What the
    notebook delegates to the framework (random numbers, differentiation,
    the optimizer's update rule) is the class [Framework].  Tensors that
    the program mutates (the parameters, their gradients, the dataset) live
    in an object store; Python exceptions are the [Err] results; the state
    carries a trace of what the training loop did, in order.

    The notebook's own code is cells 1, 3, 5 and 13.  The operations of the
    framework that it calls ([matmul], broadcasting, indexing, the
    registration of attributes by [Module], the footprint of [backward],
    [zero_grad] and [step]) follow the framework's documented behaviour,
    for tensors of one element type; the argument of [Linear.forward] may
    also be of another element type ([input]). *)

From stdpp Require Import gmap strings list fin_maps.
From Stdlib Require Import Permutation.

Set Default Proof Using "Type".
Set Warnings "-register-all,-clear-no-such-hyp".

(** ** Exceptions and results *)

Inductive exn :=
| RuntimeError
| IndexError
| AttributeError
| TypeError
| ValueError
| NameError.

Inductive result (A : Type) :=
| Ok (a : A)
| Err (e : exn).
Arguments Ok {A} a.
Arguments Err {A} e.

Definition rbind {A B} (r : result A) (k : A → result B) : result B :=
  match r with
  | Ok a => k a
  | Err e => Err e
  end.

Definition is_Ok {A} (r : result A) : Prop := ∃ a, r = Ok a.

(** ** Shapes *)

Definition numel (s : list nat) : nat := foldr Nat.mul 1 s.

(** Broadcasting of two shapes, aligned on the last dimension; the
    recursion runs on the reversed shapes. *)
Definition bdim (x y : nat) : option nat :=
  if x =? y then Some x
  else if x =? 1 then Some y
  else if y =? 1 then Some x
  else None.

Fixpoint bshape_rev (a b : list nat) : option (list nat) :=
  match a, b with
  | [], _ => Some b
  | _, [] => Some a
  | x :: a', y :: b' =>
      match bdim x y, bshape_rev a' b' with
      | Some d, Some r => Some (d :: r)
      | _, _ => None
      end
  end.

Definition broadcast_shapes (a b : list nat) : option (list nat) :=
  reverse <$> bshape_rev (reverse a) (reverse b).

(** Flat index into a tensor of (reversed) shape [src] of the element that
    broadcasting puts at flat index [i] of the (reversed) shape [tgt]. *)
Fixpoint bidx_rev (src tgt : list nat) (i : nat) : nat :=
  match src, tgt with
  | ds :: src', dt :: tgt' =>
      (if ds =? 1 then 0 else i mod dt) + ds * bidx_rev src' tgt' (i / dt)
  | _, _ => 0
  end.

Definition bidx (src tgt : list nat) (i : nat) : nat :=
  bidx_rev (reverse src) (reverse tgt) i.

(** Splitting a shape of at least one dimension for [matmul]: the batch
    dimensions, the rows and the columns of the trailing matrix.  A 1-D
    left operand is a row vector, a 1-D right operand a column vector;
    the flag says that the added dimension is dropped from the result. *)
Definition split_left (s : list nat) : list nat * nat * nat * bool :=
  match reverse s with
  | [] => ([], 1, 1, true)
  | [k] => ([], 1, k, true)
  | k :: m :: b => (reverse b, m, k, false)
  end.

Definition split_right (s : list nat) : list nat * nat * nat * bool :=
  match reverse s with
  | [] => ([], 1, 1, true)
  | [k] => ([], k, 1, true)
  | n :: k :: b => (reverse b, k, n, false)
  end.

(** ** The scalar type

    The framework's element type with its operations; [fconst] is the
    scalar of an integer literal of the program. *)
Class Scalar := {
  F : Type;
  fzero : F;
  fadd : F → F → F;
  fsub : F → F → F;
  fmul : F → F → F;
  fconst : Z → F
}.

Section Tensors.
Context {sc : Scalar}.

(** ** Tensor values *)

Record tensor := Tensor { shape : list nat; data : list F }.

Definition wf_tensor (t : tensor) : Prop := length (data t) = numel (shape t).

Definition at_ (t : tensor) (i : nat) : F := nth i (data t) fzero.

(** Sum of a list of scalars, left to right. *)
Definition fsum (l : list F) : F :=
  match l with
  | [] => fzero
  | a :: l' => foldl fadd a l'
  end.

(** An elementwise binary operation with broadcasting. *)
Definition broadcast_op (f : F → F → F) (a b : tensor) : result tensor :=
  match broadcast_shapes (shape a) (shape b) with
  | Some s =>
      Ok (Tensor s (map (λ i, f (at_ a (bidx (shape a) s i))
                                (at_ b (bidx (shape b) s i)))
                        (seq 0 (numel s))))
  | None => Err RuntimeError
  end.

(** [a + b] on tensors. *)
Definition tadd : tensor → tensor → result tensor := broadcast_op fadd.

(** [t * c] (also written [c * t]) and [t + c] for a Python number [c]. *)
Definition mul_scalar (t : tensor) (c : F) : tensor :=
  Tensor (shape t) (map (λ v, fmul v c) (data t)).
Definition add_scalar (t : tensor) (c : F) : tensor :=
  Tensor (shape t) (map (λ v, fadd v c) (data t)).

(** [torch.matmul].  The products of a row and a column are summed from
    left to right here; the framework fixes no order for a float32 sum, so
    nothing below is stated of the value of a sum of two products or more
    (with [k = 1] there is one product and no sum). *)
Definition matmul (a b : tensor) : result tensor :=
  match shape a, shape b with
  | [], _ | _, [] => Err RuntimeError
  | _, _ =>
      let '(ba, m, k, a1) := split_left (shape a) in
      let '(bb, k2, n, b1) := split_right (shape b) in
      if k =? k2 then
        match broadcast_shapes ba bb with
        | Some bs =>
            Ok (Tensor
                  (bs ++ (if a1 then [] else [m]) ++ (if b1 then [] else [n]))
                  (flat_map (λ p,
                     flat_map (λ i,
                       map (λ j,
                         fsum (map (λ l,
                           fmul (at_ a (bidx ba bs p * (m * k) + i * k + l))
                                (at_ b (bidx bb bs p * (k * n) + l * n + j)))
                           (seq 0 k)))
                         (seq 0 n))
                       (seq 0 m))
                     (seq 0 (numel bs))))
        | None => Err RuntimeError
        end
      else Err RuntimeError
  end.

(** Indexing along the first dimension: [t[i]] for an integer [i] and
    [t[idx]] for an index tensor [idx].  Row [i] of a tensor whose rows
    have [r] scalars is the slice of the data from [i * r]. *)
Definition row_data (t : tensor) (r i : nat) : list F :=
  take r (drop (i * r) (data t)).

Definition select (t : tensor) (i : nat) : result tensor :=
  match shape t with
  | [] => Err IndexError
  | n :: rest =>
      if i <? n then Ok (Tensor rest (row_data t (numel rest) i))
      else Err IndexError
  end.

Fixpoint select_all (t : tensor) (idx : list nat) : result (list tensor) :=
  match idx with
  | [] => Ok []
  | i :: idx' =>
      rbind (select t i) (λ r,
      rbind (select_all t idx') (λ rs, Ok (r :: rs)))
  end.

Definition index (t : tensor) (idx : list nat) : result tensor :=
  match shape t with
  | [] => Err IndexError
  | n :: rest =>
      rbind (select_all t idx) (λ rs,
        Ok (Tensor (length idx :: rest) (concat (data <$> rs))))
  end.

(** ** The autograd graph

    A tensor that takes part in a computation carries its [grad_fn]: the
    expression that produced it.  [Leaf l] is a tensor of the store that
    requires grad, [Const] one that does not. *)

Definition loc := nat.

Inductive graph :=
| Const (t : tensor)
| Leaf (l : loc) (t : tensor)
| Node (op : string) (args : list graph).

Fixpoint graph_leaves (g : graph) : list loc :=
  match g with
  | Const _ => []
  | Leaf l _ => [l]
  | Node _ args => flat_map graph_leaves args
  end.

Record tvar := TVar { tval : tensor; grad_fn : graph }.

Definition const (t : tensor) : tvar := TVar t (Const t).

Definition lift_op (op : string) (f : tensor → tensor → result tensor)
    (a b : tvar) : result tvar :=
  rbind (f (tval a) (tval b)) (λ v,
    Ok (TVar v (Node op [grad_fn a; grad_fn b]))).

(** [torch.nn.MSELoss(reduction='sum')]: the operands are broadcast against
    each other and the squared differences summed into a 0-D tensor. *)
Definition mse_sum (input target : tensor) : result tensor :=
  rbind (broadcast_op (λ a b, fmul (fsub a b) (fsub a b)) input target) (λ d,
    Ok (Tensor [] [fsum (data d)])).

(** [t.item()]. *)
Definition item (t : tensor) : result F :=
  match data t with
  | [v] => Ok v
  | _ => Err RuntimeError
  end.

(** ** Modules

    [torch.nn.Module] keeps the attributes of a layer in three
    dictionaries: the registered parameters, the registered submodules and
    the plain attributes of the instance.  Dictionaries keep insertion
    order, so they are association lists. *)

Inductive pyclass := ClsLinear | ClsMyLambda.

(** A tensor object of the store: its value, its [.grad] and its
    [requires_grad] flag. *)
Record tobj := TObj { value_of : tensor; grad : option tensor; requires_grad : bool }.

(** A Python function of one tensor.  It may read the tensors of the store
    (a closure over a Parameter, a global), so it takes the store as it is
    when the function is called. *)
Definition pyfunc : Type := gmap loc tobj → tvar → result tvar.

Inductive module :=
  Module {
    cls : pyclass;
    _parameters : list (string * loc);
    _modules : list (string * module);
    __dict__ : list (string * pyfunc)
  }.

(** The objects that the notebook assigns to attributes. *)
Inductive value :=
| VParameter (l : loc)
| VModule (m : module)
| VFunction (f : pyfunc).

Fixpoint assoc {A} (name : string) (d : list (string * A)) : option A :=
  match d with
  | [] => None
  | (k, v) :: d' => if String.eqb k name then Some v else assoc name d'
  end.

(** [d[name] = v]: an existing key keeps its place. *)
Fixpoint dict_set {A} (name : string) (v : A) (d : list (string * A))
    : list (string * A) :=
  match d with
  | [] => [(name, v)]
  | (k, v') :: d' =>
      if String.eqb k name then (k, v) :: d' else (k, v') :: dict_set name v d'
  end.

Definition remove_from {A} (name : string) (d : list (string * A))
    : list (string * A) :=
  List.filter (λ kv, negb (String.eqb kv.1 name)) d.

(** [super().__init__()] *)
Definition Module_init (c : pyclass) : module := Module c [] [] [].

(** [Module.__setattr__] *)
Definition setattr (m : module) (name : string) (v : value) : result module :=
  match v with
  | VParameter l =>
      Ok (Module (cls m) (dict_set name l (_parameters m))
                 (remove_from name (_modules m))
                 (remove_from name (__dict__ m)))
  | VModule m' =>
      match assoc name (_parameters m) with
      | Some _ => Err TypeError
      | None =>
          Ok (Module (cls m) (_parameters m)
                     (dict_set name m' (_modules m))
                     (remove_from name (__dict__ m)))
      end
  | VFunction f =>
      match assoc name (_parameters m), assoc name (_modules m) with
      | None, None =>
          Ok (Module (cls m) (_parameters m) (_modules m)
                     (dict_set name f (__dict__ m)))
      | _, _ => Err TypeError
      end
  end.

(** Attribute lookup: the instance dictionary first, then
    [Module.__getattr__] through the parameters and the submodules. *)
Definition getattr (m : module) (name : string) : result value :=
  match assoc name (__dict__ m) with
  | Some f => Ok (VFunction f)
  | None =>
      match assoc name (_parameters m) with
      | Some l => Ok (VParameter l)
      | None =>
          match assoc name (_modules m) with
          | Some m' => Ok (VModule m')
          | None => Err AttributeError
          end
      end
  end.

(** Keep the first occurrence of every element. *)
Fixpoint dedup (seen l : list loc) : list loc :=
  match l with
  | [] => []
  | x :: l' =>
      if bool_decide (x ∈ seen) then dedup seen l'
      else x :: dedup (x :: seen) l'
  end.

Fixpoint all_parameters (m : module) : list loc :=
  match m with
  | Module _ ps ms _ =>
      map snd ps ++ flat_map (λ km, all_parameters km.2) ms
  end.

(** [Module.parameters()]: the module's own parameters in registration
    order, then those of its submodules, each object once. *)
Definition parameters (m : module) : list loc := dedup [] (all_parameters m).

End Tensors.

(** ** What the program takes from the framework

    - the random generator: one sample of [torch.rand], one of
      [torch.randn], and [torch.randperm];
    - the optimizer: an elementwise update rule (Adam, SGD) over a state it
      keeps for every scalar of a parameter, [opt_update st p g] being the
      new scalar and the new state for the scalar [p] with gradient [g];
    - reverse-mode differentiation: [autograd g l j] is component [j] of
      the derivative with respect to the leaf [l] of the scalar that [g]
      computes;
    - the default of [zero_grad(set_to_none=...)], which depends on the
      version of the framework. *)
Class Framework {sc : Scalar} := {
  G : Type;
  rand_next : G → F * G;
  randn_next : G → F * G;
  randperm_gen : G → nat → list nat * G;
  OptSt : Type;
  s_init : OptSt;
  opt_update : OptSt → F → F → F * OptSt;
  autograd : graph → loc → nat → F;
  set_to_none : bool
}.

Section Program.
Context {sc : Scalar} {fw : Framework}.

(** ** The interpreter state *)

(** What the training loop does, in order. *)
Inductive event :=
| EvShuffle (perm : list nat)
| EvForward (x : tensor)
| EvLoss (target : tensor) (v : F)
| EvZeroGrad
| EvBackward
| EvStep
| EvAppend (v : F).

Record state := State {
  heap : gmap loc tobj;
  rng : G;
  opt_state : gmap loc (list OptSt);
  history : list F;
  trace : list event
}.

Definition set_heap (h : gmap loc tobj) (s : state) : state :=
  State h (rng s) (opt_state s) (history s) (trace s).
Definition set_rng (g : G) (s : state) : state :=
  State (heap s) g (opt_state s) (history s) (trace s).
Definition set_history (l : list F) (s : state) : state :=
  State (heap s) (rng s) (opt_state s) l (trace s).
Definition log (e : event) (s : state) : state :=
  State (heap s) (rng s) (opt_state s) (history s) (trace s ++ [e]).

Definition M (A : Type) : Type := state → result (A * state).

Definition ret {A} (a : A) : M A := λ s, Ok (a, s).
Definition bind {A B} (m : M A) (k : A → M B) : M B :=
  λ s, match m s with
       | Ok (a, s') => k a s'
       | Err e => Err e
       end.
Definition lift {A} (r : result A) : M A :=
  λ s, match r with
       | Ok a => Ok (a, s)
       | Err e => Err e
       end.
Definition throw {A} (e : exn) : M A := λ _, Err e.

Notation "'let*' x ':=' m 'in' k" := (bind m (λ x, k))
  (at level 10, x pattern, m at level 100, k at level 200).
Notation "m ';;' k" := (bind m (λ _, k))
  (at level 100, k at level 200, right associativity).

(** A new object of the store. *)
Definition alloc (o : tobj) : M loc :=
  λ s, let l := fresh (dom (heap s)) in Ok (l, set_heap (<[l := o]> (heap s)) s).

(** Reading a variable bound to a tensor object: the value the object has
    now, as a leaf of the graph when it requires grad. *)
Definition read (l : loc) : M tvar :=
  λ s, match heap s !! l with
       | Some o =>
           Ok (TVar (value_of o)
                    (if requires_grad o then Leaf l (value_of o)
                     else Const (value_of o)), s)
       | None => Err NameError
       end.

(** [n] samples of the generator. *)
Fixpoint draw (next : G → F * G) (n : nat) (g : G) : list F * G :=
  match n with
  | 0 => ([], g)
  | S n' =>
      let '(v, g') := next g in
      let '(vs, g'') := draw next n' g' in
      (v :: vs, g'')
  end.

Definition sample (next : G → F * G) (sh : list nat) : M tensor :=
  λ s, let '(vs, g) := draw next (numel sh) (rng s) in
       Ok (Tensor sh vs, set_rng g s).

Definition rand : list nat → M tensor := sample rand_next.
Definition randn : list nat → M tensor := sample randn_next.
Definition zeros (sh : list nat) : tensor := Tensor sh (replicate (numel sh) fzero).

(** [torch.randperm(n)] *)
Definition randperm (n : nat) : M (list nat) :=
  λ s, let '(p, g) := randperm_gen (rng s) n in
       Ok (p, log (EvShuffle p) (set_rng g s)).

(** [torch.nn.Parameter(t)]: a new tensor object that requires grad. *)
Definition nn_Parameter (t : tensor) : M loc := alloc (TObj t None true).

(** ** Cell 1: the Linear layer *)

Definition Linear_init (units input_dim : nat) : M module :=
  let self := Module_init ClsLinear in
  let* t := randn [input_dim; units] in
  let* p := nn_Parameter t in
  let* self := lift (setattr self "w" (VParameter p)) in
  let* p := nn_Parameter (zeros [units]) in
  let* self := lift (setattr self "b" (VParameter p)) in
  ret self.

(** An attribute that is used as a tensor. *)
Definition getattr_tensor (h : gmap loc tobj) (m : module) (name : string)
    : result tvar :=
  rbind (getattr m name) (λ v,
    match v with
    | VParameter l =>
        match h !! l with
        | Some o =>
            Ok (TVar (value_of o)
                     (if requires_grad o then Leaf l (value_of o)
                      else Const (value_of o)))
        | None => Err RuntimeError
        end
    | _ => Err TypeError
    end).

Definition Linear_forward (h : gmap loc tobj) (self : module) (x : tvar)
    : result tvar :=
  rbind (getattr_tensor h self "w") (λ w,
  rbind (lift_op "MatmulBackward" matmul x w) (λ xw,
  rbind (getattr_tensor h self "b") (λ b,
    lift_op "AddBackward" tadd xw b))).

(** The argument of [forward] as Python passes it: a tensor of the
    parameters' element type (float32), or a tensor of another element
    type (an int64 tensor such as [torch.tensor([10])]), of which only the
    shape is kept.  [torch.matmul] does not convert: against the float32
    [w] it raises on an operand of another element type, whatever its
    shape. *)
Inductive input :=
| Same (x : tvar)
| Other (sh : list nat).

Definition input_shape (x : input) : list nat :=
  match x with
  | Same x => shape (tval x)
  | Other sh => sh
  end.

Definition matmul_in (x : input) (w : tvar) : result tvar :=
  match x with
  | Same x => lift_op "MatmulBackward" matmul x w
  | Other _ => Err RuntimeError
  end.

(** [Linear.forward] on an argument of any element type; on [Same x] it is
    [Linear_forward]. *)
Definition Linear_forward_in (h : gmap loc tobj) (self : module) (x : input)
    : result tvar :=
  rbind (getattr_tensor h self "w") (λ w,
  rbind (matmul_in x w) (λ xw,
  rbind (getattr_tensor h self "b") (λ b,
    lift_op "AddBackward" tadd xw b))).

(** ** Cell 13: the MyLambda layer *)

Definition MyLambda_init (func : value) : result module :=
  setattr (Module_init ClsMyLambda) "func" func.

(** Calling an object: a function is applied, a module is called, a
    Parameter is not callable. *)
Definition call_value (call : module → tvar → result tvar)
    (h : gmap loc tobj) (v : value) (x : tvar) : result tvar :=
  match v with
  | VFunction f => f h x
  | VModule m => call m x
  | VParameter _ => Err TypeError
  end.

Definition MyLambda_forward (call : module → tvar → result tvar)
    (h : gmap loc tobj) (self : module) (inputs : tvar) : result tvar :=
  rbind (getattr self "func") (λ func, call_value call h func inputs).

(** The [forward] method of a module, by its class. *)
Definition forward (call : module → tvar → result tvar) (h : gmap loc tobj)
    (self : module) (x : tvar) : result tvar :=
  match cls self with
  | ClsLinear => Linear_forward h self x
  | ClsMyLambda => MyLambda_forward call h self x
  end.

(** [Module.__call__]: the module's [forward].  The recursion is on the
    submodule that [MyLambda.forward] finds under [func];
    [module_call_forward] below shows that this is [forward]. *)
Fixpoint module_call (h : gmap loc tobj) (m : module) (x : tvar) {struct m}
    : result tvar :=
  match m with
  | Module ClsLinear ps ms fs => Linear_forward h (Module ClsLinear ps ms fs) x
  | Module ClsMyLambda ps ms fs =>
      match assoc "func" fs with
      | Some f => f h x
      | None =>
          match assoc "func" ps with
          | Some _ => Err TypeError
          | None =>
              (fix call_sub (d : list (string * module)) : result tvar :=
                 match d with
                 | [] => Err AttributeError
                 | (k, m') :: d' =>
                     if String.eqb k "func" then module_call h m' x
                     else call_sub d'
                 end) ms
          end
      end
  end.

(** [double = MyLambda(lambda x: 2*x)] *)
Definition double : result module :=
  MyLambda_init
    (VFunction (λ _ x, Ok (TVar (mul_scalar (tval x) (fconst 2))
                                (Node "MulBackward" [grad_fn x])))).

(** ** The optimizer *)

Record optimizer := Optimizer { params : list loc }.

(** [torch.optim.Adam(params, lr=...)] *)
Definition Adam (ps : list loc) : result optimizer :=
  match ps with
  | [] => Err ValueError
  | _ => Ok (Optimizer ps)
  end.

Definition zero_grad_obj (o : tobj) : tobj :=
  match grad o with
  | None => o
  | Some g =>
      TObj (value_of o)
           (if set_to_none then None
            else Some (Tensor (shape g) (map (λ _, fzero) (data g))))
           (requires_grad o)
  end.

(** [optimizer.zero_grad()] *)
Definition zero_grad (opt : optimizer) : M unit :=
  λ s, Ok (tt, log EvZeroGrad
             (set_heap (foldl (λ h p, alter zero_grad_obj p h) (heap s) (params opt)) s)).

(** The gradient of [g] with respect to the leaf [l], added to its [.grad]. *)
Definition accumulate (g : graph) (l : loc) (o : tobj) : tobj :=
  let d := Tensor (shape (value_of o))
                  (map (autograd g l) (seq 0 (numel (shape (value_of o))))) in
  TObj (value_of o)
       (Some (match grad o with
              | None => d
              | Some old => Tensor (shape old) (zip_with fadd (data old) (data d))
              end))
       (requires_grad o).

(** [t.backward()] *)
Definition backward (t : tvar) : M unit :=
  λ s, if numel (shape (tval t)) =? 1 then
         match graph_leaves (grad_fn t) with
         | [] => Err RuntimeError
         | ls =>
             Ok (tt, log EvBackward
                   (set_heap (foldl (λ h l, alter (accumulate (grad_fn t) l) l h)
                                    (heap s) (dedup [] ls)) s))
         end
       else Err RuntimeError.

(** The update rule over the scalars [vals] of a parameter with gradient
    [grads] and optimizer state [st] (initial where there is none yet): the
    new scalars with their new states. *)
Definition update_scalars (st : list OptSt) (vals grads : list F)
    : list (F * OptSt) :=
  imap (λ i v, opt_update (default s_init (st !! i)) v
                          (default fzero (grads !! i)))
       vals.

(** One parameter of [optimizer.step()]: a parameter without gradient is
    skipped. *)
Definition step_param (s : state) (p : loc) : state :=
  match heap s !! p with
  | Some o =>
      match grad o with
      | Some g =>
          let r := update_scalars (default [] (opt_state s !! p))
                                  (data (value_of o)) (data g) in
          State (<[p := TObj (Tensor (shape (value_of o)) (r.*1)) (grad o)
                             (requires_grad o)]> (heap s))
                (rng s) (<[p := r.*2]> (opt_state s)) (history s) (trace s)
      | None => s
      end
  | None => s
  end.

(** [optimizer.step()] *)
Definition step (opt : optimizer) : M unit :=
  λ s, Ok (tt, log EvStep (foldl step_param s (params opt))).

(** ** Cells 3 and 5: the data and the training loop *)

Definition n_batches : nat := 64.
Definition batch_size : nat := 32.
Definition epoches : nat := 200.

(** [model(x)] for a batch [x] of the data, a tensor that does not require
    grad. *)
Definition call (model : module) (x : tensor) : M tvar :=
  λ s, match module_call (heap s) model (const x) with
       | Ok r => Ok (r, log (EvForward x) s)
       | Err e => Err e
       end.

(** [criterion(y_pred, y)] for [criterion = MSELoss(reduction='sum')].
    The scalar of the loss is read here for the trace only. *)
Definition criterion (y_pred : tvar) (y : tensor) : M tvar :=
  λ s, match rbind (lift_op "MseLossBackward" mse_sum y_pred (const y))
                   (λ l, rbind (item (tval l)) (λ v, Ok (l, v))) with
       | Ok (l, v) => Ok (l, log (EvLoss y v) s)
       | Err e => Err e
       end.

(** [history = []] and [history.append(v)] *)
Definition history_new : M unit := λ s, Ok (tt, set_history [] s).

Definition history_append (v : F) : M unit :=
  λ s, Ok (tt, log (EvAppend v) (set_history (history s ++ [v]) s)).

(** The body of the inner loop; it returns the new value of [loss]. *)
Definition batch (model : module) (optimizer : optimizer)
    (x_perm y_perm : tensor) (t : nat) : M tvar :=
  let* xb := lift (select x_perm t) in
  let* y_pred := call model xb in
  let* yb := lift (select y_perm t) in
  let* loss := criterion y_pred yb in
  zero_grad optimizer ;;
  backward loss ;;
  step optimizer ;;
  ret loss.

(** The inner loop, [for t in range(n_batches)], over the remaining values
    of [t].  The variable [loss] is carried along: it is unbound until the
    first batch. *)
Fixpoint batches (model : module) (optimizer : optimizer)
    (x_perm y_perm : tensor) (ts : list nat) (loss : option tvar)
    : M (option tvar) :=
  match ts with
  | [] => ret loss
  | t :: ts' =>
      let* loss := batch model optimizer x_perm y_perm t in
      batches model optimizer x_perm y_perm ts' (Some loss)
  end.

(** One iteration of the outer loop. *)
Definition epoch (model : module) (optimizer : optimizer) (x y : loc)
    (n : nat) (loss : option tvar) : M (option tvar) :=
  let* rand_perm := randperm n in
  let* xv := read x in
  let* x_perm := lift (index (tval xv) rand_perm) in
  let* yv := read y in
  let* y_perm := lift (index (tval yv) rand_perm) in
  let* loss := batches model optimizer x_perm y_perm (seq 0 n) loss in
  match loss with
  | None => throw NameError
  | Some l =>
      let* v := lift (item (tval l)) in
      history_append v ;;
      ret loss
  end.

(** The outer loop, [for e in range(epoches)]. *)
Fixpoint epochs (model : module) (optimizer : optimizer) (x y : loc)
    (n : nat) (es : nat) (loss : option tvar) : M (option tvar) :=
  match es with
  | 0 => ret loss
  | S es' =>
      let* loss := epoch model optimizer x y n loss in
      epochs model optimizer x y n es' loss
  end.

(** Cell 3: the synthetic data.  [iadd] is [y += t], in place. *)
Definition iadd (l : loc) (t : tensor) : M unit :=
  λ s, match heap s !! l with
       | Some o =>
           match tadd (value_of o) t with
           | Ok r =>
               if bool_decide (shape r = shape (value_of o))
               then Ok (tt, set_heap (<[l := TObj r (grad o) (requires_grad o)]> (heap s)) s)
               else Err RuntimeError
           | Err e => Err e
           end
       | None => Err NameError
       end.

Definition make_data (nb bs : nat) : M (loc * loc) :=
  let* r := rand [nb; bs; 1] in
  let xt := mul_scalar r (fconst 100) in
  let* x := alloc (TObj xt None false) in
  let yt := add_scalar (mul_scalar xt (fconst 3)) (fconst 5) in
  let* y := alloc (TObj yt None false) in
  let* noise := rand (shape yt) in
  iadd y noise ;;
  ret (x, y).

(** Cell 5: the model, the optimizer and the training loop. *)
Record env := Env { v_x : loc; v_y : loc; v_model : module; v_optimizer : optimizer }.

(** The cell as it runs in a new kernel: the global [loss] is unbound when
    the loop starts.  [epochs] takes the binding of [loss] as it is. *)
Definition train (x y : loc) (nb es : nat) : M env :=
  let* model := Linear_init 1 1 in
  let* optimizer := lift (Adam (parameters model)) in
  history_new ;;
  epochs model optimizer x y nb es None ;;
  ret (Env x y model optimizer).

Definition notebook : M env :=
  let* xy := make_data n_batches batch_size in
  train xy.1 xy.2 n_batches epoches.

(** ** Cells 4 and 6: reading the data and the history *)

(** [t[i, j, k]] and [a - b] on tensors. *)
Definition select3 (t : tensor) (i j k : nat) : result tensor :=
  rbind (select t i) (λ a, rbind (select a j) (λ b, select b k)).

Definition tsub : tensor → tensor → result tensor := broadcast_op fsub.

(** Cell 4: [e = x[0,example,0] * 3 + 5 - y[0,example,0]] *)
Definition noise_of_example (x y : loc) (example : nat) : M tensor :=
  let* xv := read x in
  let* xe := lift (select3 (tval xv) 0 example 0) in
  let* yv := read y in
  let* ye := lift (select3 (tval yv) 0 example 0) in
  lift (tsub (add_scalar (mul_scalar xe (fconst 3)) (fconst 5)) ye).

(** Cell 6: [history[-1]] *)
Definition final_loss : M F :=
  λ s, match last (history s) with
       | Some v => Ok (v, s)
       | None => Err IndexError
       end.

(** ** Reading the state

    The predicates and the reading of the trace that the statements below
    are written with. *)

Definition rmap {A B} (f : A → B) (r : result A) : result B :=
  rbind r (λ a, Ok (f a)).

(** [self] is a Linear layer whose parameters [w] and [b] are the objects
    [lw] and [lb] of the store [h], of shapes [(input_dim, units)] and
    [(units,)]. *)
Definition param_obj (h : gmap loc tobj) (l : loc) (sh : list nat) : Prop :=
  ∃ o, h !! l = Some o ∧ shape (value_of o) = sh ∧ wf_tensor (value_of o)
       ∧ requires_grad o = true.

Definition linear_layer (h : gmap loc tobj) (self : module)
    (input_dim units : nat) (lw lb : loc) : Prop :=
  self = Module ClsLinear [("w", lw); ("b", lb)] [] [] ∧ lw ≠ lb
  ∧ param_obj h lw [input_dim; units] ∧ param_obj h lb [units].

(** [l] is a tensor object of shape [sh] that does not require grad. *)
Definition data_obj (h : gmap loc tobj) (l : loc) (sh : list nat) : Prop :=
  ∃ o, h !! l = Some o ∧ shape (value_of o) = sh ∧ wf_tensor (value_of o)
       ∧ requires_grad o = false.

(** The generator's contract: [randperm n] is a permutation of
    [0 .. n-1]. *)
Definition randperm_ok : Prop :=
  ∀ g n, Permutation (randperm_gen g n).1 (seq 0 n).

(** An object after an update in place: same shape, same number of
    scalars, same [requires_grad]. *)
Definition same_kind (o o' : tobj) : Prop :=
  shape (value_of o') = shape (value_of o)
  ∧ length (data (value_of o')) = length (data (value_of o))
  ∧ requires_grad o' = requires_grad o.

(** The store [h'] is [h] but for updates in place of objects among [ps]. *)
Definition updates_only (ps : list loc) (h h' : gmap loc tobj) : Prop :=
  ∀ l, h' !! l = h !! l
       ∨ (l ∈ ps ∧ ∃ o o', h !! l = Some o ∧ h' !! l = Some o' ∧ same_kind o o').

(** The loss of the model on one batch, in the store [h]. *)
Definition loss_of (h : gmap loc tobj) (model : module) (xb yb : tensor)
    : result F :=
  rbind (module_call h model (const xb)) (λ y_pred,
  rbind (mse_sum (tval y_pred) yb) item).

(** What one batch and one epoch leave in the trace; [b_store] is the store
    at the start of the batch. *)
Record batch_rec := BatchRec {
  b_store : gmap loc tobj;
  b_input : tensor;
  b_target : tensor;
  b_loss : F
}.

Definition events_of_batch (r : batch_rec) : list event :=
  [EvForward (b_input r); EvLoss (b_target r) (b_loss r);
   EvZeroGrad; EvBackward; EvStep].

Record epoch_log := EpochLog {
  e_perm : list nat;
  e_batches : list batch_rec;
  e_appended : F
}.

Definition events_of_epoch (e : epoch_log) : list event :=
  EvShuffle (e_perm e) :: flat_map events_of_batch (e_batches e)
    ++ [EvAppend (e_appended e)].

(** The number of optimizer steps in a trace, and row [i] of a dataset
    tensor as a tensor of its own. *)
Definition is_step (e : event) : bool :=
  match e with
  | EvStep => true
  | _ => false
  end.

Definition steps_of (tr : list event) : nat := length (List.filter is_step tr).

Definition row_of (t : tensor) (i : nat) : tensor :=
  Tensor (tail (shape t)) (row_data t (numel (tail (shape t))) i).

(** The batch [r] is the pair of row [i] of [x] and row [i] of [y]. *)
Definition batch_is (x y : tensor) (i : nat) (r : batch_rec) : Prop :=
  select x i = Ok (b_input r) ∧ select y i = Ok (b_target r).

(** The loss recorded for the batch [r] is the loss of the model on it, in
    a store that is the store [h] but for updates of the objects [ps]. *)
Definition batch_loss_is (model : module) (ps : list loc) (h : gmap loc tobj)
    (r : batch_rec) : Prop :=
  updates_only ps h (b_store r)
  ∧ loss_of (b_store r) model (b_input r) (b_target r) = Ok (b_loss r).

(** An epoch over the dataset [x], [y] of [n] batches: the batches are the
    rows of [x] paired with the rows of [y], in the order of one
    permutation, and the value appended to the history is the loss of the
    last of them. *)
Definition epoch_ok (model : module) (ps : list loc) (h : gmap loc tobj)
    (x y : tensor) (n : nat) (e : epoch_log) : Prop :=
  Permutation (e_perm e) (seq 0 n)
  ∧ Forall2 (batch_is x y) (e_perm e) (e_batches e)
  ∧ Forall (batch_loss_is model ps h) (e_batches e)
  ∧ ∃ r, last (e_batches e) = Some r ∧ e_appended e = b_loss r.

End Program.

(** ** An instance

    Integers for the scalars, a counter for the random generator (whose
    permutations are rotations), plain gradient descent for the optimizer:
    enough to run the program. *)

Definition Zscalar : Scalar :=
  {| F := Z; fzero := 0%Z; fadd := Z.add; fsub := Z.sub; fmul := Z.mul;
     fconst := λ z, z |}.

Definition Zframework : @Framework Zscalar :=
  {| G := nat;
     rand_next := λ g : nat, (Z.of_nat g : @F Zscalar, S g);
     randn_next := λ g : nat, ((Z.of_nat g - 3)%Z : @F Zscalar, S g);
     randperm_gen := λ (g n : nat), (rotate g (seq 0 n), S g);
     OptSt := unit;
     s_init := tt;
     opt_update := λ _ (p g : Z), ((p - g)%Z : @F Zscalar, tt);
     autograd := λ g l j, Z.of_nat (length (graph_leaves g) + l + j) : @F Zscalar;
     set_to_none := true |}.

Definition Zstate0 : @state Zscalar Zframework :=
  State ∅ (0 : @G Zscalar Zframework) ∅ [] [].

(** A layer with one input and one unit, [w = [[3]]] and [b = [5]], and an
    input of two rows. *)
Definition Zw : @tobj Zscalar := TObj (@Tensor Zscalar [1; 1] [3%Z]) None true.
Definition Zb : @tobj Zscalar := TObj (@Tensor Zscalar [1] [5%Z]) None true.
Definition Zstore : gmap loc (@tobj Zscalar) := <[1 := Zb]> (<[0 := Zw]> ∅).
Definition Zlayer : @module Zscalar :=
  Module ClsLinear [("w", 0); ("b", 1)] [] [].
Definition Zinput : @tvar Zscalar := const (@Tensor Zscalar [2; 1] [10%Z; 20%Z]).

Definition Zx_perm : @tensor Zscalar := @Tensor Zscalar [1; 2; 1] [10%Z; 20%Z].
Definition Zy_perm : @tensor Zscalar := @Tensor Zscalar [1; 2; 1] [36%Z; 64%Z].
Definition Zstate2 : @state Zscalar Zframework :=
  State (<[3 := TObj Zy_perm None false]> (<[2 := TObj Zx_perm None false]> Zstore))
        (0 : @G Zscalar Zframework) ∅ [] [].

(** The same with inputs of two scalars, which the layer does not take. *)
Definition Zx_wide : @tensor Zscalar :=
  @Tensor Zscalar [1; 2; 2] [1%Z; 2%Z; 3%Z; 4%Z].
Definition Zstate3 : @state Zscalar Zframework :=
  State (<[3 := TObj Zy_perm None false]> (<[2 := TObj Zx_wide None false]> Zstore))
        (0 : @G Zscalar Zframework) ∅ [] [].

(** A function that closes over the parameter [w] of that layer,
    [lambda x: x * w], and a state where [w] and [b] have a gradient. *)
Definition Zreader : @pyfunc Zscalar :=
  λ h x,
    match h !! 0 with
    | Some o =>
        lift_op "MulBackward" (broadcast_op fmul) x
                (TVar (value_of o) (Leaf 0 (value_of o)))
    | None => Err NameError
    end.
Definition Zstate4 : @state Zscalar Zframework :=
  State (<[1 := TObj (@Tensor Zscalar [1] [5%Z]) (Some (@Tensor Zscalar [1] [1%Z])) true]>
           (<[0 := TObj (@Tensor Zscalar [1; 1] [3%Z])
                        (Some (@Tensor Zscalar [1; 1] [1%Z])) true]> ∅))
        (0 : @G Zscalar Zframework) ∅ [] [].

(** [lambda x: 2*x], which reads nothing of the store. *)
Definition Zdouble : @pyfunc Zscalar :=
  λ _ x, Ok (TVar (mul_scalar (tval x) 2%Z) (Node "MulBackward" [grad_fn x])).

(** A loss left bound by an earlier run of the training cell. *)
Definition Zloss : @tvar Zscalar := const (@Tensor Zscalar [] [7%Z]).

(** * Properties *)

Section Proofs.
Context {sc : Scalar} {fw : Framework}.

(** ** Shapes *)

Lemma bdim_refl x : bdim x x = Some x.
Proof. unfold bdim. by rewrite Nat.eqb_refl. Qed.

Lemma bshape_rev_nil_r a : bshape_rev a [] = Some a.
Proof. by destruct a. Qed.

Lemma bshape_rev_refl a : bshape_rev a a = Some a.
Proof.
  induction a as [|x a IH]; [done|].
  simpl. by rewrite bdim_refl, IH.
Qed.

Lemma broadcast_shapes_nil_r s : broadcast_shapes s [] = Some s.
Proof.
  unfold broadcast_shapes. rewrite reverse_nil, bshape_rev_nil_r. simpl.
  by rewrite reverse_involutive.
Qed.

Lemma broadcast_shapes_refl s : broadcast_shapes s s = Some s.
Proof.
  unfold broadcast_shapes. rewrite bshape_rev_refl. simpl.
  by rewrite reverse_involutive.
Qed.

Lemma broadcast_shapes_last s u : broadcast_shapes (s ++ [u]) [u] = Some (s ++ [u]).
Proof.
  unfold broadcast_shapes. rewrite reverse_snoc, reverse_singleton. simpl.
  rewrite bdim_refl, bshape_rev_nil_r. simpl.
  by rewrite reverse_cons, reverse_involutive.
Qed.

Lemma numel_app s t : numel (s ++ t) = numel s * numel t.
Proof.
  unfold numel. induction s as [|x s IH]; simpl; [lia|]. rewrite IH. lia.
Qed.

(** The shape of [matmul a b] for a 2-D [b]. *)
Lemma matmul_2d_ok (a b : tensor) s k n :
  shape a = s ++ [k] → shape b = [k; n] →
  ∃ d, matmul a b = Ok (Tensor (s ++ [n]) d).
Proof.
  intros Ha Hb. unfold matmul. rewrite Ha, Hb.
  destruct (s ++ [k]) as [|z zs] eqn:E; [by destruct s|]. rewrite <- E.
  unfold split_left, split_right. rewrite reverse_snoc.
  change (reverse [k; n]) with [n; k].
  destruct (reverse s) as [|m b'] eqn:Es.
  - apply (f_equal reverse) in Es. rewrite reverse_involutive in Es. subst s.
    rewrite Nat.eqb_refl. change (broadcast_shapes [] []) with (Some (@nil nat)).
    eauto.
  - apply (f_equal reverse) in Es. rewrite reverse_involutive, reverse_cons in Es.
    subst s. rewrite Nat.eqb_refl, broadcast_shapes_nil_r.
    rewrite <- (assoc_L (++)). eauto.
Qed.

Lemma matmul_2d_inv (a b r : tensor) k n :
  shape b = [k; n] → matmul a b = Ok r →
  ∃ s, shape a = s ++ [k] ∧ shape r = s ++ [n].
Proof.
  intros Hb. unfold matmul. rewrite Hb.
  destruct (shape a) as [|z zs] eqn:E; [done|].
  assert (z :: zs ≠ []) as Hne by done.
  destruct (exists_last Hne) as (s & k' & Hs). rewrite Hs.
  unfold split_left, split_right. rewrite reverse_snoc.
  change (reverse [k; n]) with [n; k].
  destruct (reverse s) as [|m b'] eqn:Es.
  - apply (f_equal reverse) in Es. rewrite reverse_involutive in Es. subst s.
    destruct (k' =? k) eqn:Ek; [|done]. apply Nat.eqb_eq in Ek. subst k'.
    change (broadcast_shapes [] []) with (Some (@nil nat)).
    intros [= <-]. by exists [].
  - apply (f_equal reverse) in Es. rewrite reverse_involutive, reverse_cons in Es.
    subst s. destruct (k' =? k) eqn:Ek; [|done]. apply Nat.eqb_eq in Ek. subst k'.
    rewrite broadcast_shapes_nil_r. intros [= <-].
    exists (reverse b' ++ [m]). split; [done|]. simpl.
    by rewrite <- (assoc_L (++)).
Qed.

Lemma tadd_last_ok (a b : tensor) s u :
  shape a = s ++ [u] → shape b = [u] → ∃ d, tadd a b = Ok (Tensor (s ++ [u]) d).
Proof.
  intros Ha Hb. unfold tadd, broadcast_op. rewrite Ha, Hb, broadcast_shapes_last.
  eauto.
Qed.

(** ** The Linear layer *)

Lemma draw_length next n g : length (draw next n g).1 = n.
Proof.
  revert g. induction n as [|n IH]; intros g; simpl; [done|].
  destruct (next g) as [v g']. specialize (IH g').
  destruct (draw next n g') as [vs g'']. simpl in *. by rewrite IH.
Qed.

Lemma zeros_wf sh : wf_tensor (zeros sh).
Proof. unfold wf_tensor, zeros. simpl. by rewrite length_replicate. Qed.

Lemma getattr_tensor_param h self name l o :
  getattr self name = Ok (VParameter l) → h !! l = Some o →
  getattr_tensor h self name
  = Ok (TVar (value_of o)
             (if requires_grad o then Leaf l (value_of o) else Const (value_of o))).
Proof. intros Hg Hl. unfold getattr_tensor. rewrite Hg. simpl. by rewrite Hl. Qed.

Lemma Linear_forward_params h self lw lb ow ob x :
  getattr self "w" = Ok (VParameter lw) → getattr self "b" = Ok (VParameter lb) →
  h !! lw = Some ow → h !! lb = Some ob →
  rmap tval (Linear_forward h self x)
  = rbind (matmul (tval x) (value_of ow)) (λ xw, tadd xw (value_of ob)).
Proof.
  intros Hw Hb How Hob. unfold Linear_forward.
  rewrite (getattr_tensor_param _ _ _ _ _ Hw How). simpl.
  unfold lift_op at 1. simpl.
  destruct (matmul (tval x) (value_of ow)) as [xw|e]; [|done]. simpl.
  rewrite (getattr_tensor_param _ _ _ _ _ Hb Hob). simpl.
  unfold lift_op. simpl. by destruct (tadd xw (value_of ob)).
Qed.

Lemma linear_layer_getattr h self k u lw lb :
  linear_layer h self k u lw lb →
  getattr self "w" = Ok (VParameter lw) ∧ getattr self "b" = Ok (VParameter lb).
Proof. intros (-> & _). by split. Qed.

Lemma module_call_Linear h self x :
  cls self = ClsLinear → module_call h self x = Linear_forward h self x.
Proof. destruct self as [c ps ms fs]. simpl. by intros ->. Qed.

(** The forward pass of a layer on an input whose last dimension is
    [input_dim]: the value, its shape and its graph. *)
Lemma Linear_forward_ok h self k u lw lb x s :
  linear_layer h self k u lw lb → shape (tval x) = s ++ [k] →
  ∃ ow ob xw d,
    h !! lw = Some ow ∧ h !! lb = Some ob
    ∧ matmul (tval x) (value_of ow) = Ok xw
    ∧ tadd xw (value_of ob) = Ok (Tensor (s ++ [u]) d)
    ∧ Linear_forward h self x
      = Ok (TVar (Tensor (s ++ [u]) d)
              (Node "AddBackward"
                 [Node "MatmulBackward" [grad_fn x; Leaf lw (value_of ow)];
                  Leaf lb (value_of ob)])).
Proof.
  intros HL Hx. destruct (linear_layer_getattr _ _ _ _ _ _ HL) as [Hgw Hgb].
  destruct HL as (_ & _ & (ow & How & Hsw & _ & Hrw) & (ob & Hob & Hsb & _ & Hrb)).
  destruct (matmul_2d_ok (tval x) (value_of ow) s k u Hx Hsw) as [dm Hm].
  destruct (tadd_last_ok (Tensor (s ++ [u]) dm) (value_of ob) s u eq_refl Hsb)
    as [d Hd].
  exists ow, ob, (Tensor (s ++ [u]) dm), d. repeat split; try done.
  unfold Linear_forward.
  rewrite (getattr_tensor_param _ _ _ _ _ Hgw How),
    (getattr_tensor_param _ _ _ _ _ Hgb Hob), Hrw, Hrb. simpl.
  unfold lift_op at 1. simpl. rewrite Hm. simpl.
  unfold lift_op. simpl. by rewrite Hd.
Qed.

(** C1. For every input [x], the forward operation of a Linear layer whose
    attributes [w] and [b] are the parameters [lw] and [lb] of the store
    returns [torch.matmul(x, self.w) + self.b], computed on the values that
    the two parameters have in the store; calling the layer is calling its
    forward operation. *)
Theorem Linear_forward_affine (h : gmap loc tobj) (self : module)
    (lw lb : loc) (ow ob : tobj) (x : tvar) :
  cls self = ClsLinear →
  getattr self "w" = Ok (VParameter lw) →
  getattr self "b" = Ok (VParameter lb) →
  h !! lw = Some ow → h !! lb = Some ob →
  module_call h self x = Linear_forward h self x
  ∧ rmap tval (Linear_forward h self x)
    = rbind (matmul (tval x) (value_of ow)) (λ xw, tadd xw (value_of ob)).
Proof.
  intros Hc Hw Hb How Hob. split.
  - by apply module_call_Linear.
  - by apply Linear_forward_params with lw lb.
Qed.

(** On a tensor of the parameters' element type, for a Linear layer with
    parameters of shapes [(input_dim, units)] and [(units,)]: [forward x]
    is defined exactly when the last dimension of [x] has size
    [input_dim]; the result then has the shape of [x] with its last
    dimension replaced by [units]. *)
Lemma Linear_forward_defined (h : gmap loc tobj) (self : module)
    (input_dim units : nat) (lw lb : loc) (x : tvar) :
  linear_layer h self input_dim units lw lb →
  (is_Ok (Linear_forward h self x) ↔ ∃ s, shape (tval x) = s ++ [input_dim])
  ∧ (∀ s, shape (tval x) = s ++ [input_dim] →
       ∃ r, Linear_forward h self x = Ok r ∧ shape (tval r) = s ++ [units]).
Proof.
  intros HL. split; [split|].
  - intros [r Hr].
    destruct (linear_layer_getattr _ _ _ _ _ _ HL) as [Hgw Hgb].
    destruct HL as (_ & _ & (ow & How & Hsw & _) & (ob & Hob & _)).
    pose proof (Linear_forward_params h self lw lb ow ob x Hgw Hgb How Hob) as E.
    rewrite Hr in E. simpl in E.
    destruct (matmul (tval x) (value_of ow)) as [xw|e] eqn:Hm; [|done].
    destruct (matmul_2d_inv _ _ _ _ _ Hsw Hm) as (s & Hs & _). eauto.
  - intros [s Hs].
    destruct (Linear_forward_ok _ _ _ _ _ _ _ _ HL Hs) as (? & ? & ? & ? & _ & _ & _ & _ & E).
    rewrite E. by eexists.
  - intros s Hs.
    destruct (Linear_forward_ok _ _ _ _ _ _ _ _ HL Hs) as (? & ? & ? & ? & _ & _ & _ & _ & E).
    rewrite E. by eexists.
Qed.

(** C8. [forward] on an argument of the parameters' element type is
    defined exactly when the last dimension of the argument has size
    [input_dim], and the result then has the shape of the argument with
    its last dimension replaced by [units]; on an argument of another
    element type it raises [RuntimeError], whatever the shape. *)
Theorem Linear_forward_in_defined (h : gmap loc tobj) (self : module)
    (input_dim units : nat) (lw lb : loc) :
  linear_layer h self input_dim units lw lb →
  (∀ x : tvar,
     (is_Ok (Linear_forward_in h self (Same x))
      ↔ ∃ s, input_shape (Same x) = s ++ [input_dim])
     ∧ (∀ s, input_shape (Same x) = s ++ [input_dim] →
          ∃ r, Linear_forward_in h self (Same x) = Ok r
               ∧ shape (tval r) = s ++ [units]))
  ∧ (∀ sh, Linear_forward_in h self (Other sh) = Err RuntimeError).
Proof.
  intros HL. split.
  - intros x. apply (Linear_forward_defined h self input_dim units lw lb x HL).
  - intros sh. destruct (linear_layer_getattr _ _ _ _ _ _ HL) as [Hgw _].
    destruct HL as (_ & _ & (ow & How & _) & _).
    unfold Linear_forward_in. by rewrite (getattr_tensor_param _ _ _ _ _ Hgw How).
Qed.

(** What [Linear.__init__] returns and leaves in the state. *)
Lemma Linear_init_spec units input_dim s :
  ∃ lw lb dw g,
    Linear_init units input_dim s
    = Ok (Module ClsLinear [("w", lw); ("b", lb)] [] [],
          set_heap (<[lb := TObj (zeros [units]) None true]>
                      (<[lw := TObj (Tensor [input_dim; units] dw) None true]>
                         (heap s)))
                   (set_rng g s))
    ∧ length dw = input_dim * units
    ∧ (lw ∉ dom (heap s)) ∧ (lb ∉ dom (heap s)) ∧ lw ≠ lb.
Proof.
  unfold Linear_init, bind, randn, sample, nn_Parameter, alloc, lift, ret.
  pose proof (draw_length randn_next (numel [input_dim; units]) (rng s)) as Hl.
  destruct (draw randn_next (numel [input_dim; units]) (rng s)) as [dw g].
  simpl in Hl. simpl.
  set (lw := fresh (dom (heap s))).
  set (lb := fresh (dom (<[lw := TObj (Tensor [input_dim; units] dw) None true]> (heap s)))).
  assert (lw ∉ dom (heap s)) as Hw by apply is_fresh.
  assert (lb ∉ dom (<[lw := TObj (Tensor [input_dim; units] dw) None true]> (heap s)))
    as Hb by apply is_fresh.
  rewrite dom_insert_L in Hb.
  exists lw, lb, dw, g. split; [done|].
  split; [lia|]. split; [done|]. split; set_solver.
Qed.

(** C5. [Linear(units, input_dim)] always returns, and the layer it returns
    has exactly two registered parameters, [w] then [b], and nothing else:
    two distinct new objects of the store, [w] of shape
    [(input_dim, units)] and [b] the zeros of shape [(units,)], both
    requiring grad, and both what [parameters()] yields. *)
Theorem Linear_init_parameters (units input_dim : nat) (s : state) :
  ∃ self s' lw lb,
    Linear_init units input_dim s = Ok (self, s')
    ∧ _parameters self = [("w", lw); ("b", lb)]
    ∧ _modules self = [] ∧ __dict__ self = []
    ∧ parameters self = [lw; lb]
    ∧ lw ≠ lb ∧ (lw ∉ dom (heap s)) ∧ (lb ∉ dom (heap s))
    ∧ linear_layer (heap s') self input_dim units lw lb
    ∧ (∃ ow, heap s' !! lw = Some ow ∧ grad ow = None)
    ∧ heap s' !! lb = Some (TObj (zeros [units]) None true).
Proof.
  destruct (Linear_init_spec units input_dim s)
    as (lw & lb & dw & g & E & Hl & Hw & Hb & Hne).
  eexists _, _, lw, lb. split; [exact E|]. simpl.
  assert (parameters (Module ClsLinear [("w", lw); ("b", lb)] [] []) = [lw; lb])
    as Hp.
  { unfold parameters. simpl. rewrite bool_decide_eq_false_2; [done|].
    rewrite list_elem_of_singleton. congruence. }
  repeat split; try done.
  - exists (TObj (Tensor [input_dim; units] dw) None true).
    rewrite lookup_insert_ne, lookup_insert_eq by done.
    repeat split; try done. unfold wf_tensor. simpl. lia.
  - exists (TObj (zeros [units]) None true). rewrite lookup_insert_eq.
    repeat split; try done. apply zeros_wf.
  - eexists. rewrite lookup_insert_ne, lookup_insert_eq by done. done.
  - by rewrite lookup_insert_eq.
Qed.

(** ** The MyLambda layer *)

Lemma module_call_forward h m x :
  module_call h m x = forward (module_call h) h m x.
Proof.
  destruct m as [[] ps ms fs]; [done|].
  unfold forward, MyLambda_forward, getattr. simpl.
  destruct (assoc "func" fs); [done|].
  destruct (assoc "func" ps); [done|].
  induction ms as [|[k m'] ms IH]; [done|]. simpl.
  destruct (String.eqb k "func"); [done|]. apply IH.
Qed.

(** C2. For every function [f], [MyLambda(f)] returns a layer whose
    attribute [func] is [f] itself, and calling the layer on any [x]
    returns [f x]: what [f] itself returns on [x] in the store of the
    call. *)
Theorem MyLambda_applies (f : pyfunc) (h : gmap loc tobj) (x : tvar) :
  ∃ self,
    MyLambda_init (VFunction f) = Ok self
    ∧ getattr self "func" = Ok (VFunction f)
    ∧ MyLambda_forward (module_call h) h self x = f h x
    ∧ module_call h self x = f h x.
Proof. eexists. repeat split. Qed.

(** When [func] is itself a module, it is registered as a submodule, and
    its parameters are parameters of the wrapper. *)
Remark MyLambda_wraps_module (m : module) :
  ∃ self,
    MyLambda_init (VModule m) = Ok self
    ∧ _modules self = [("func", m)] ∧ __dict__ self = []
    ∧ all_parameters self = all_parameters m.
Proof. eexists. split_and!; try done. simpl. by rewrite app_nil_r. Qed.

(** ** Indexing *)

Lemma select_ok t n rest i :
  shape t = n :: rest → i < n →
  select t i = Ok (Tensor rest (row_data t (numel rest) i)).
Proof.
  intros Hs Hi. unfold select. rewrite Hs.
  by rewrite (proj2 (Nat.ltb_lt _ _) Hi).
Qed.

Lemma select_all_ok t n rest idx :
  shape t = n :: rest → Forall (λ i, i < n) idx →
  select_all t idx = Ok ((λ i, Tensor rest (row_data t (numel rest) i)) <$> idx).
Proof.
  intros Hs. induction 1 as [|i idx Hi _ IH]; [done|].
  simpl. rewrite (select_ok _ _ _ _ Hs Hi). simpl. by rewrite IH.
Qed.

Lemma index_ok t n rest idx :
  shape t = n :: rest → Forall (λ i, i < n) idx →
  index t idx
  = Ok (Tensor (length idx :: rest)
               (concat ((λ i, row_data t (numel rest) i) <$> idx))).
Proof.
  intros Hs Hi. unfold index. rewrite Hs, (select_all_ok _ _ _ _ Hs Hi). simpl.
  by rewrite <- list_fmap_compose.
Qed.

Lemma row_data_length t n rest i :
  shape t = n :: rest → wf_tensor t → i < n →
  length (row_data t (numel rest) i) = numel rest.
Proof.
  unfold wf_tensor, row_data. intros -> Hw Hi. simpl in Hw.
  rewrite length_take, length_drop, Hw. nia.
Qed.

Lemma concat_row (ls : list (list F)) r j l :
  Forall (λ l, length l = r) ls → ls !! j = Some l →
  take r (drop (j * r) (concat ls)) = l.
Proof.
  intros Hl. revert j. induction Hl as [|l0 ls H0 _ IH]; intros j Hj; [done|].
  destruct j as [|j].
  - injection Hj as ->. change (0 * r) with 0. rewrite drop_0.
    change (concat (l :: ls)) with (l ++ concat ls). by rewrite take_app_length'.
  - change (concat (l0 :: ls)) with (l0 ++ concat ls).
    replace (S j * r) with (r + j * r) by lia.
    rewrite drop_app_add' by done. by apply IH.
Qed.

(** Row [j] of [t[idx]] is row [idx[j]] of [t]. *)
Lemma select_index t n rest idx j i :
  shape t = n :: rest → wf_tensor t → Forall (λ i, i < n) idx →
  idx !! j = Some i →
  select (Tensor (length idx :: rest)
                 (concat ((λ i, row_data t (numel rest) i) <$> idx))) j
  = select t i.
Proof.
  intros Hs Hw Hidx Hj.
  assert (i < n) as Hi.
  { rewrite Forall_forall in Hidx. apply Hidx. by eapply list_elem_of_lookup_2. }
  rewrite (select_ok t n rest i Hs Hi).
  erewrite select_ok; [|done|by eapply lookup_lt_Some].
  f_equal. f_equal. unfold row_data at 1. simpl.
  apply concat_row.
  - apply Forall_fmap, Forall_forall. intros i' Hi'. simpl.
    rewrite Forall_forall in Hidx. by eapply row_data_length; eauto.
  - by rewrite list_lookup_fmap, Hj.
Qed.

Lemma perm_bounds p n : Permutation p (seq 0 n) → Forall (λ i, i < n) p ∧ length p = n.
Proof.
  intros Hp. split.
  - apply Forall_forall. intros i Hi. rewrite Hp in Hi.
    apply elem_of_seq in Hi. lia.
  - by rewrite Hp, length_seq.
Qed.

(** ** Updates in place *)

Lemma same_kind_refl o : same_kind o o.
Proof. by repeat split. Qed.

Lemma same_kind_trans o1 o2 o3 : same_kind o1 o2 → same_kind o2 o3 → same_kind o1 o3.
Proof. intros (? & ? & ?) (? & ? & ?). repeat split; congruence. Qed.

Lemma updates_only_refl ps h : updates_only ps h h.
Proof. intros l. by left. Qed.

Lemma updates_only_trans ps h1 h2 h3 :
  updates_only ps h1 h2 → updates_only ps h2 h3 → updates_only ps h1 h3.
Proof.
  intros H12 H23 l.
  destruct (H12 l) as [E1|(Hl & o1 & o2 & E1 & E2 & K12)],
           (H23 l) as [E2'|(Hl' & o2' & o3 & E2' & E3 & K23)].
  - left. congruence.
  - right. split; [done|].
    exists o2', o3. rewrite <- E1. by split_and!.
  - right. split; [done|]. exists o1, o2. rewrite E2'. by split_and!.
  - right. split; [done|]. exists o1, o3. split_and!; try done.
    assert (o2' = o2) as -> by congruence. by eapply same_kind_trans.
Qed.

Lemma updates_only_alter ps h p (f : tobj → tobj) :
  p ∈ ps → (∀ o, same_kind o (f o)) → updates_only ps h (alter f p h).
Proof.
  intros Hp Hf l. destruct (decide (l = p)) as [->|Hne].
  - destruct (h !! p) as [o|] eqn:E.
    + right. split; [done|]. exists o, (f o).
      rewrite lookup_alter_eq, E. by split_and!.
    + left. by rewrite lookup_alter_eq, E.
  - left. by rewrite lookup_alter_ne.
Qed.

Lemma updates_only_foldl_alter ps qs h (f : loc → tobj → tobj) :
  qs ⊆ ps → (∀ p o, same_kind o (f p o)) →
  updates_only ps h (foldl (λ h p, alter (f p) p h) h qs).
Proof.
  intros Hq Hf. revert h. induction qs as [|q qs IH]; intros h.
  - apply updates_only_refl.
  - simpl. eapply updates_only_trans; [|apply IH; set_solver].
    apply updates_only_alter; [set_solver|apply Hf].
Qed.

Lemma updates_only_insert ps h p o o' :
  p ∈ ps → h !! p = Some o → same_kind o o' → updates_only ps h (<[p := o']> h).
Proof.
  intros Hp Ho Hk l. destruct (decide (l = p)) as [->|Hne].
  - right. split; [done|]. exists o, o'. by rewrite lookup_insert_eq.
  - left. by rewrite lookup_insert_ne.
Qed.

Lemma updates_only_ne ps h h' l : updates_only ps h h' → l ∉ ps → h' !! l = h !! l.
Proof. intros H Hl. destruct (H l) as [E|[? _]]; done. Qed.

Lemma param_obj_updates ps h h' l sh :
  updates_only ps h h' → param_obj h l sh → param_obj h' l sh.
Proof.
  intros H (o & Ho & Hs & Hw & Hr).
  destruct (H l) as [E|(_ & o1 & o2 & E1 & E2 & K1 & K2 & K3)].
  - exists o. by rewrite E.
  - assert (o1 = o) as -> by congruence. exists o2.
    unfold wf_tensor in *. repeat split; try done; congruence.
Qed.

Lemma linear_layer_updates ps h h' self k u lw lb :
  updates_only ps h h' → linear_layer h self k u lw lb →
  linear_layer h' self k u lw lb.
Proof.
  intros H (? & ? & ? & ?). repeat split; try done; by eapply param_obj_updates.
Qed.

Lemma data_obj_updates ps h h' l sh :
  updates_only ps h h' → l ∉ ps → data_obj h l sh → data_obj h' l sh.
Proof.
  intros H Hl (o & Ho & ?). exists o. by rewrite (updates_only_ne _ _ _ _ H Hl).
Qed.

(** ** The steps of one batch *)

Lemma zero_grad_obj_kind o : same_kind o (zero_grad_obj o).
Proof. unfold zero_grad_obj. destruct (grad o); by repeat split. Qed.

Lemma accumulate_kind g l o : same_kind o (accumulate g l o).
Proof. by repeat split. Qed.

Lemma step_param_spec s p :
  rng (step_param s p) = rng s ∧ history (step_param s p) = history s
  ∧ trace (step_param s p) = trace s
  ∧ ∀ ps, p ∈ ps → updates_only ps (heap s) (heap (step_param s p)).
Proof.
  unfold step_param. destruct (heap s !! p) as [o|] eqn:Ho.
  - destruct (grad o) as [g|].
    + repeat split; try done. intros ps Hp. simpl.
      apply updates_only_insert with o; [done..|].
      repeat split; try done. simpl. unfold update_scalars.
      by rewrite length_fmap, length_imap.
    + repeat split; try done. intros. apply updates_only_refl.
  - repeat split; try done. intros. apply updates_only_refl.
Qed.

Lemma foldl_step_param_spec s qs ps :
  qs ⊆ ps →
  rng (foldl step_param s qs) = rng s
  ∧ history (foldl step_param s qs) = history s
  ∧ trace (foldl step_param s qs) = trace s
  ∧ updates_only ps (heap s) (heap (foldl step_param s qs)).
Proof.
  revert s. induction qs as [|q qs IH]; intros s Hq.
  - repeat split; try done. apply updates_only_refl.
  - simpl. destruct (IH (step_param s q)) as (E1 & E2 & E3 & E4); [set_solver|].
    destruct (step_param_spec s q) as (F1 & F2 & F3 & F4).
    repeat split; try congruence.
    eapply updates_only_trans; [apply F4; set_solver|done].
Qed.

(** ** MyLambda and the optimizer *)

(** C10. For every function [f], the layer [MyLambda(f)] holds [f] as a
    plain attribute: it has no registered parameter and no submodule, so
    [parameters()] yields nothing and no optimizer can be built over it.
    The step of any optimizer leaves the layer's result on an input as it
    was, unless [f] itself reads, for that input, an object that this
    optimizer holds.  For every module [m], the layer [MyLambda(m)] holds
    [m] as a submodule, and [parameters()] yields the parameters of [m]. *)
Theorem MyLambda_parameters :
  (∀ f : pyfunc,
     ∃ self,
       MyLambda_init (VFunction f) = Ok self
       ∧ __dict__ self = [("func", f)]
       ∧ _parameters self = [] ∧ _modules self = []
       ∧ parameters self = []
       ∧ Adam (parameters self) = Err ValueError
       ∧ ∀ (opt : optimizer) (s : state) (x : tvar),
           (∀ h', (∀ l, l ∉ params opt → h' !! l = heap s !! l) →
                  f h' x = f (heap s) x) →
           ∃ s', step opt s = Ok (tt, s')
                 ∧ module_call (heap s') self x = module_call (heap s) self x)
  ∧ (∀ m : module,
       ∃ self,
         MyLambda_init (VModule m) = Ok self
         ∧ __dict__ self = []
         ∧ _parameters self = [] ∧ _modules self = [("func", m)]
         ∧ parameters self = parameters m).
Proof.
  split.
  - intros f. eexists. split; [reflexivity|]. split_and!; try done.
    intros opt s x Hf. eexists. split; [reflexivity|].
    cbn [heap log]. change (module_call ?h _ x) with (f h x). apply Hf.
    intros l Hl.
    destruct (foldl_step_param_spec s (params opt) (params opt)) as (_ & _ & _ & Hu);
      [done|].
    by apply (updates_only_ne _ _ _ _ Hu).
  - intros m. eexists. split; [reflexivity|]. split_and!; try done.
    unfold parameters. cbn. by rewrite app_nil_r.
Qed.

Lemma mse_sum_ok a b : shape a = shape b → ∃ v, mse_sum a b = Ok (Tensor [] [v]).
Proof.
  intros E. unfold mse_sum, broadcast_op. rewrite E, broadcast_shapes_refl.
  simpl. eauto.
Qed.

Lemma dedup_two (l1 l2 : loc) : l1 ≠ l2 → dedup [] [l1; l2] = [l1; l2].
Proof.
  intros Hne. simpl. rewrite bool_decide_eq_false_2; [done|].
  rewrite list_elem_of_singleton. congruence.
Qed.

Lemma bind_Ok {A B} (m : M A) (k : A → M B) s a s' :
  m s = Ok (a, s') → bind m k s = k a s'.
Proof. intros E. unfold bind. by rewrite E. Qed.

Lemma lift_Ok {A} (r : result A) a s : r = Ok a → lift r s = Ok (a, s).
Proof. by intros ->. Qed.

Lemma backward_Ok t s l ls :
  numel (shape (tval t)) = 1 → graph_leaves (grad_fn t) = l :: ls →
  backward t s
  = Ok (tt, log EvBackward
              (set_heap (foldl (λ h l, alter (accumulate (grad_fn t) l) l h)
                               (heap s) (dedup [] (l :: ls))) s)).
Proof. intros Hn Hl. unfold backward. by rewrite Hn, Hl. Qed.

(** One batch: it returns, its five steps are logged in order, and it
    updates the two parameters in place and nothing else. *)
Lemma batch_spec model opt x_perm y_perm n bs k u lw lb t s :
  linear_layer (heap s) model k u lw lb → params opt = [lw; lb] →
  shape x_perm = [n; bs; k] → shape y_perm = [n; bs; u] → t < n →
  ∃ r loss s',
    batch model opt x_perm y_perm t s = Ok (loss, s')
    ∧ item (tval loss) = Ok (b_loss r)
    ∧ b_store r = heap s
    ∧ batch_is x_perm y_perm t r
    ∧ loss_of (heap s) model (b_input r) (b_target r) = Ok (b_loss r)
    ∧ trace s' = trace s ++ events_of_batch r
    ∧ rng s' = rng s ∧ history s' = history s
    ∧ updates_only [lw; lb] (heap s) (heap s').
Proof.
  intros HL Hopt Hx Hy Ht.
  pose proof (select_ok x_perm n [bs; k] t Hx Ht) as Hxb.
  pose proof (select_ok y_perm n [bs; u] t Hy Ht) as Hyb.
  set (xb := Tensor [bs; k] (row_data x_perm (numel [bs; k]) t)) in *.
  set (yb := Tensor [bs; u] (row_data y_perm (numel [bs; u]) t)) in *.
  destruct (Linear_forward_ok (heap s) model k u lw lb (const xb) [bs] HL eq_refl)
    as (ow & ob & xw & d & How & Hob & Hm & Ha & Hf).
  assert (cls model = ClsLinear) as Hc by (by destruct HL as (-> & _)).
  assert (lw ≠ lb) as Hne by (by destruct HL as (_ & ? & _)).
  rewrite <- module_call_Linear in Hf by done.
  set (y_pred := TVar (Tensor ([bs] ++ [u]) d)
                   (Node "AddBackward"
                      [Node "MatmulBackward" [grad_fn (const xb); Leaf lw (value_of ow)];
                       Leaf lb (value_of ob)])) in *.
  destruct (mse_sum_ok (tval y_pred) yb eq_refl) as [v Hv].
  set (loss := TVar (Tensor [] [v])
                 (Node "MseLossBackward" [grad_fn y_pred; grad_fn (const yb)])).
  set (s1 := log (EvLoss yb v) (log (EvForward xb) s)).
  set (s2 := log EvZeroGrad
               (set_heap (foldl (λ h p, alter zero_grad_obj p h) (heap s1) [lw; lb]) s1)).
  set (s3 := log EvBackward
               (set_heap (foldl (λ h l, alter (accumulate (grad_fn loss) l) l h)
                                (heap s2) [lw; lb]) s2)).
  exists (BatchRec (heap s) xb yb v), loss, (log EvStep (foldl step_param s3 [lw; lb])).
  split.
  { unfold batch.
    rewrite (bind_Ok _ _ s xb s) by (by apply lift_Ok).
    rewrite (bind_Ok _ _ s y_pred (log (EvForward xb) s))
      by (unfold call; by rewrite Hf).
    rewrite (bind_Ok _ _ _ yb (log (EvForward xb) s)) by (by apply lift_Ok).
    rewrite (bind_Ok _ _ _ loss s1).
    2:{ unfold criterion, lift_op. change (tval (const yb)) with yb.
        by rewrite Hv. }
    rewrite (bind_Ok _ _ s1 tt s2) by (unfold zero_grad; by rewrite Hopt).
    rewrite (bind_Ok _ _ s2 tt s3).
    2:{ rewrite (backward_Ok loss s2 lw [lb]) by done.
        by rewrite (dedup_two _ _ Hne). }
    rewrite (bind_Ok _ _ s3 tt (log EvStep (foldl step_param s3 [lw; lb])))
      by (unfold step; by rewrite Hopt).
    done. }
  split; [done|]. split; [done|]. split; [done|].
  split. { unfold loss_of. cbn [b_input b_target b_loss]. rewrite Hf.
           cbn [rbind]. by rewrite Hv. }
  destruct (foldl_step_param_spec s3 [lw; lb] [lw; lb]) as (E1 & E2 & E3 & E4);
    [done|].
  cbn [trace rng history heap log]. rewrite E1, E2, E3.
  split. { unfold events_of_batch. simpl. by rewrite <- !(assoc_L (++)). }
  split; [done|]. split; [done|].
  eapply updates_only_trans; [|exact E4].
  eapply updates_only_trans.
  - apply (updates_only_foldl_alter [lw; lb] [lw; lb] (heap s) (λ _, zero_grad_obj));
      [done|]. intros _ o. apply zero_grad_obj_kind.
  - apply (updates_only_foldl_alter [lw; lb] [lw; lb] _
             (λ l, accumulate (grad_fn loss) l)); [done|].
    intros l o. apply accumulate_kind.
Qed.

(** ** The loops *)

Lemma batches_spec model opt x_perm y_perm n bs k u lw lb h0 ts :
  params opt = [lw; lb] →
  shape x_perm = [n; bs; k] → shape y_perm = [n; bs; u] →
  Forall (λ t, t < n) ts →
  ∀ loss s,
    linear_layer (heap s) model k u lw lb →
    updates_only [lw; lb] h0 (heap s) →
    ∃ recs loss' s',
      batches model opt x_perm y_perm ts loss s = Ok (loss', s')
      ∧ Forall2 (batch_is x_perm y_perm) ts recs
      ∧ Forall (batch_loss_is model [lw; lb] h0) recs
      ∧ match last recs with
        | Some r => ∃ l, loss' = Some l ∧ item (tval l) = Ok (b_loss r)
        | None => loss' = loss
        end
      ∧ trace s' = trace s ++ flat_map events_of_batch recs
      ∧ rng s' = rng s ∧ history s' = history s
      ∧ updates_only [lw; lb] (heap s) (heap s').
Proof.
  intros Hopt Hx Hy. induction 1 as [|t ts Ht _ IH]; intros loss s HL H0.
  - exists [], loss, s. split_and!; try done.
    + by rewrite app_nil_r.
    + apply updates_only_refl.
  - destruct (batch_spec model opt x_perm y_perm n bs k u lw lb t s HL Hopt Hx Hy Ht)
      as (r & l & s1 & E & Hi & Hst & Hb & Hlo & Htr & Hrng & Hh & Hu).
    destruct (IH (Some l) s1) as (recs & loss' & s' & E' & Hb' & Hlo' & Hlast & Htr' & Hrng' & Hh' & Hu').
    { by eapply linear_layer_updates. }
    { by eapply updates_only_trans. }
    exists (r :: recs), loss', s'. split_and!.
    + simpl. by rewrite (bind_Ok _ _ s l s1).
    + by constructor.
    + constructor; [|done]. split; [by rewrite Hst|]. by rewrite Hst.
    + rewrite last_cons. destruct (last recs) as [r'|]; [done|]. by exists l.
    + rewrite Htr', Htr. simpl. by rewrite <- !(assoc_L (++)).
    + congruence.
    + congruence.
    + by eapply updates_only_trans.
Qed.

Lemma Forall_seq_lt n : Forall (λ t, t < n) (seq 0 n).
Proof. apply Forall_forall. intros t Ht. apply elem_of_seq in Ht. lia. Qed.

(** One epoch. *)
Lemma epoch_spec model opt x y n bs k u lw lb h0 ox oy loss s :
  randperm_ok → 0 < n → params opt = [lw; lb] →
  linear_layer (heap s) model k u lw lb →
  updates_only [lw; lb] h0 (heap s) →
  heap s !! x = Some ox → shape (value_of ox) = [n; bs; k] → wf_tensor (value_of ox) →
  heap s !! y = Some oy → shape (value_of oy) = [n; bs; u] → wf_tensor (value_of oy) →
  ∃ e l s',
    epoch model opt x y n loss s = Ok (Some l, s')
    ∧ epoch_ok model [lw; lb] h0 (value_of ox) (value_of oy) n e
    ∧ e_perm e = (randperm_gen (rng s) n).1
    ∧ trace s' = trace s ++ events_of_epoch e
    ∧ history s' = history s ++ [e_appended e]
    ∧ updates_only [lw; lb] (heap s) (heap s').
Proof.
  intros Hperm Hn Hopt HL H0 Hox Hsx Hwx Hoy Hsy Hwy.
  pose proof (Hperm (rng s) n) as Hp.
  destruct (randperm_gen (rng s) n) as [p g] eqn:Eg. simpl in Hp.
  destruct (perm_bounds p n Hp) as [Hb Hlen].
  set (s1 := log (EvShuffle p) (set_rng g s)).
  pose proof (index_ok (value_of ox) n [bs; k] p Hsx Hb) as Hix.
  pose proof (index_ok (value_of oy) n [bs; u] p Hsy Hb) as Hiy.
  rewrite Hlen in Hix, Hiy.
  set (x_perm := Tensor (n :: [bs; k]) _) in Hix.
  set (y_perm := Tensor (n :: [bs; u]) _) in Hiy.
  destruct (batches_spec model opt x_perm y_perm n bs k u lw lb h0 (seq 0 n)
              Hopt eq_refl eq_refl (Forall_seq_lt n) loss s1 HL H0)
    as (recs & loss' & s2 & E & Hbs & Hlo & Hlast & Htr & Hrng & Hh & Hu).
  assert (length recs = n) as Hlr.
  { apply Forall2_length in Hbs. by rewrite length_seq in Hbs. }
  destruct (last recs) as [r|] eqn:Elast.
  2:{ apply last_None in Elast. subst recs. simpl in Hlr. lia. }
  destruct Hlast as (l & -> & Hitem).
  exists (EpochLog p recs (b_loss r)), l,
    (log (EvAppend (b_loss r)) (set_history (history s2 ++ [b_loss r]) s2)).
  split_and!.
  - unfold epoch.
    rewrite (bind_Ok _ _ s p s1) by (unfold randperm; by rewrite Eg).
    rewrite (bind_Ok _ _ s1 (TVar (value_of ox)
               (if requires_grad ox then Leaf x (value_of ox) else Const (value_of ox))) s1)
      by (unfold read; change (heap s1) with (heap s); by rewrite Hox).
    rewrite (bind_Ok _ _ s1 x_perm s1) by (by apply lift_Ok).
    rewrite (bind_Ok _ _ s1 (TVar (value_of oy)
               (if requires_grad oy then Leaf y (value_of oy) else Const (value_of oy))) s1)
      by (unfold read; change (heap s1) with (heap s); by rewrite Hoy).
    rewrite (bind_Ok _ _ s1 y_perm s1) by (by apply lift_Ok).
    rewrite (bind_Ok _ _ s1 (Some l) s2) by done.
    rewrite (bind_Ok _ _ s2 (b_loss r) s2) by (by apply lift_Ok).
    reflexivity.
  - unfold epoch_ok. cbn [e_perm e_batches e_appended]. split_and!.
    + done.
    + apply Forall2_same_length_lookup. split; [congruence|].
      intros j i rj Hj Hrj.
      rewrite Forall2_same_length_lookup in Hbs. destruct Hbs as [_ Hbs].
      assert (seq 0 n !! j = Some j) as Hsj.
      { apply lookup_seq. split; [done|]. apply lookup_lt_Some in Hrj. lia. }
      destruct (Hbs j j rj Hsj Hrj) as [Bx By]. split.
      * rewrite <- Bx. symmetry. subst x_perm. rewrite <- Hlen.
        by apply select_index with n.
      * rewrite <- By. symmetry. subst y_perm. rewrite <- Hlen.
        by apply select_index with n.
    + done.
    + by exists r.
  - done.
  - cbn [trace log set_history]. rewrite Htr. unfold events_of_epoch.
    cbn [e_perm e_batches e_appended trace log set_rng s1].
    by rewrite <- !(assoc_L (++)).
  - cbn [history log set_history]. by rewrite Hh.
  - done.
Qed.

Lemma epochs_spec model opt x y n bs k u lw lb h0 ox oy es :
  randperm_ok → 0 < n → params opt = [lw; lb] →
  x ∉ [lw; lb] → y ∉ [lw; lb] →
  shape (value_of ox) = [n; bs; k] → wf_tensor (value_of ox) →
  shape (value_of oy) = [n; bs; u] → wf_tensor (value_of oy) →
  ∀ loss s,
    linear_layer (heap s) model k u lw lb →
    updates_only [lw; lb] h0 (heap s) →
    heap s !! x = Some ox → heap s !! y = Some oy →
    ∃ logs loss' s',
      epochs model opt x y n es loss s = Ok (loss', s')
      ∧ length logs = es
      ∧ Forall (epoch_ok model [lw; lb] h0 (value_of ox) (value_of oy) n) logs
      ∧ trace s' = trace s ++ flat_map events_of_epoch logs
      ∧ history s' = history s ++ (e_appended <$> logs)
      ∧ updates_only [lw; lb] (heap s) (heap s').
Proof.
  intros Hperm Hn Hopt Hx Hy Hsx Hwx Hsy Hwy.
  induction es as [|es IH]; intros loss s HL H0 Hox Hoy.
  - exists [], loss, s. split_and!; try done.
    + by rewrite app_nil_r.
    + by rewrite app_nil_r.
    + apply updates_only_refl.
  - destruct (epoch_spec model opt x y n bs k u lw lb h0 ox oy loss s
                Hperm Hn Hopt HL H0 Hox Hsx Hwx Hoy Hsy Hwy)
      as (e & l & s1 & E & Hok & _ & Htr & Hh & Hu).
    destruct (IH (Some l) s1) as (logs & loss' & s' & E' & Hlen & Hoks & Htr' & Hh' & Hu').
    { by eapply linear_layer_updates. }
    { by eapply updates_only_trans. }
    { by rewrite (updates_only_ne _ _ _ _ Hu Hx). }
    { by rewrite (updates_only_ne _ _ _ _ Hu Hy). }
    exists (e :: logs), loss', s'. split_and!.
    + simpl. by rewrite (bind_Ok _ _ s (Some l) s1).
    + simpl. by rewrite Hlen.
    + by constructor.
    + rewrite Htr', Htr. cbn [flat_map]. by rewrite (assoc_L (++)).
    + rewrite Hh', Hh. by rewrite <- (assoc_L (++)).
    + by eapply updates_only_trans.
Qed.

Lemma updates_only_sym ps h h' : updates_only ps h h' → updates_only ps h' h.
Proof.
  intros H l. destruct (H l) as [E|(Hl & o & o' & E1 & E2 & K1 & K2 & K3)].
  - by left.
  - right. split; [done|]. exists o', o. by split_and!.
Qed.

Lemma epoch_ok_store model ps h h' xt yt n e :
  updates_only ps h h' → epoch_ok model ps h xt yt n e →
  epoch_ok model ps h' xt yt n e.
Proof.
  intros Hu (Hp & Hb & Hl & Hr). split_and!; try done.
  eapply Forall_impl; [exact Hl|]. intros r [H1 H2]. split; [|done].
  eapply updates_only_trans; [|exact H1]. by apply updates_only_sym.
Qed.

(** ** Cell 3 *)

Lemma sample_Ok next sh s :
  ∃ vs g, sample next sh s = Ok (Tensor sh vs, set_rng g s) ∧ length vs = numel sh.
Proof.
  unfold sample. pose proof (draw_length next (numel sh) (rng s)) as Hl.
  destruct (draw next (numel sh) (rng s)) as [vs g]. by exists vs, g.
Qed.

Lemma make_data_spec nb bs s :
  ∃ x y ox oy s',
    make_data nb bs s = Ok ((x, y), s')
    ∧ x ≠ y ∧ (x ∉ dom (heap s)) ∧ (y ∉ dom (heap s))
    ∧ data_obj (heap s') x [nb; bs; 1] ∧ data_obj (heap s') y [nb; bs; 1]
    ∧ heap s' !! x = Some ox ∧ heap s' !! y = Some oy
    ∧ (∀ l, l ≠ x → l ≠ y → heap s' !! l = heap s !! l)
    ∧ trace s' = trace s ∧ history s' = history s.
Proof.
  destruct (sample_Ok rand_next [nb; bs; 1] s) as (vs & g & Er & Hlv).
  set (xt := mul_scalar (Tensor [nb; bs; 1] vs) (fconst 100)).
  set (x := fresh (dom (heap s))).
  set (s1 := set_heap (<[x := TObj xt None false]> (heap s)) (set_rng g s)).
  set (yt := add_scalar (mul_scalar xt (fconst 3)) (fconst 5)).
  set (y := fresh (dom (heap s1))).
  set (s2 := set_heap (<[y := TObj yt None false]> (heap s1)) s1).
  destruct (sample_Ok rand_next [nb; bs; 1] s2) as (ns & g' & En & Hln).
  assert (x ∉ dom (heap s)) as Hx by apply is_fresh.
  assert (y ∉ dom (heap s1)) as Hy by apply is_fresh.
  cbn [heap s1 set_heap] in Hy. rewrite dom_insert_L in Hy.
  assert (x ≠ y) as Hne by set_solver.
  assert (∃ d, tadd yt (Tensor [nb; bs; 1] ns) = Ok (Tensor [nb; bs; 1] d)
               ∧ length d = numel [nb; bs; 1]) as (d & Ed & Hld).
  { unfold tadd, broadcast_op. change (shape yt) with [nb; bs; 1].
    cbn [shape]. rewrite broadcast_shapes_refl.
    eexists. split; [done|]. by rewrite length_map, length_seq. }
  set (s3 := set_heap (<[y := TObj (Tensor [nb; bs; 1] d) None false]> (heap (set_rng g' s2)))
                      (set_rng g' s2)).
  exists x, y, (TObj xt None false), (TObj (Tensor [nb; bs; 1] d) None false), s3.
  assert (heap s3 !! x = Some (TObj xt None false)) as Hlx.
  { cbn. by rewrite lookup_insert_ne, lookup_insert_ne, lookup_insert_eq. }
  assert (heap s3 !! y = Some (TObj (Tensor [nb; bs; 1] d) None false)) as Hly.
  { cbn. by rewrite lookup_insert_eq. }
  split_and!; try done.
  - unfold make_data.
    rewrite (bind_Ok _ _ s (Tensor [nb; bs; 1] vs) (set_rng g s)) by exact Er.
    rewrite (bind_Ok _ _ (set_rng g s) x s1) by done.
    rewrite (bind_Ok _ _ s1 y s2) by done.
    rewrite (bind_Ok _ _ s2 (Tensor [nb; bs; 1] ns) (set_rng g' s2)) by exact En.
    rewrite (bind_Ok _ _ (set_rng g' s2) tt s3); [done|].
    unfold iadd. cbn [heap set_rng s2 set_heap]. rewrite lookup_insert_eq.
    cbn [value_of]. rewrite Ed. change (shape yt) with [nb; bs; 1].
    by rewrite bool_decide_eq_true_2.
  - set_solver.
  - eexists. split; [exact Hlx|]. split_and!; try done.
    unfold wf_tensor. cbn. rewrite length_map. cbn in Hlv. lia.
  - eexists. split; [exact Hly|]. by split_and!.
  - intros l Hlx' Hly'. cbn. by rewrite !lookup_insert_ne.
Qed.

(** ** The optimizer step on two parameters *)

(** The object [o] after a step with the optimizer state [st]. *)
Lemma step_param_lookup_eq s p o :
  heap s !! p = Some o →
  heap (step_param s p) !! p
  = Some (match grad o with
          | Some g =>
              TObj (Tensor (shape (value_of o))
                      ((update_scalars (default [] (opt_state s !! p))
                          (data (value_of o)) (data g)).*1))
                   (grad o) (requires_grad o)
          | None => o
          end).
Proof.
  intros Ho. unfold step_param. rewrite Ho.
  destruct (grad o) as [g|]; [|done]. simpl. by rewrite lookup_insert_eq.
Qed.

Lemma step_param_lookup_ne s p l :
  l ≠ p →
  heap (step_param s p) !! l = heap s !! l
  ∧ opt_state (step_param s p) !! l = opt_state s !! l.
Proof.
  intros Hne. unfold step_param. destruct (heap s !! p) as [o|]; [|done].
  destruct (grad o) as [g|]; [|done]. simpl. by rewrite !lookup_insert_ne.
Qed.


(** ** Cell 5 *)

Lemma Linear_init_frame units input_dim s :
  ∃ lw lb s1,
    Linear_init units input_dim s
    = Ok (Module ClsLinear [("w", lw); ("b", lb)] [] [], s1)
    ∧ linear_layer (heap s1) (Module ClsLinear [("w", lw); ("b", lb)] [] [])
        input_dim units lw lb
    ∧ (lw ∉ dom (heap s)) ∧ (lb ∉ dom (heap s))
    ∧ (∀ l, l ≠ lw → l ≠ lb → heap s1 !! l = heap s !! l)
    ∧ trace s1 = trace s.
Proof.
  destruct (Linear_init_spec units input_dim s)
    as (lw & lb & dw & g & E & Hl & Hw & Hb & Hne).
  eexists lw, lb, _. split; [exact E|]. cbn [heap set_heap set_rng trace].
  split_and!; try done.
  - split_and!; try done.
    + exists (TObj (Tensor [input_dim; units] dw) None true).
      rewrite lookup_insert_ne, lookup_insert_eq by done.
      split_and!; try done. unfold wf_tensor. simpl. lia.
    + exists (TObj (zeros [units]) None true). rewrite lookup_insert_eq.
      split_and!; try done. apply zeros_wf.
  - intros l H1 H2. by rewrite !lookup_insert_ne.
Qed.

Lemma parameters_Linear lw lb :
  lw ≠ lb → parameters (Module ClsLinear [("w", lw); ("b", lb)] [] []) = [lw; lb].
Proof. intros Hne. unfold parameters. simpl. by apply dedup_two. Qed.

(** The whole of cell 5 on a dataset of [nb] batches. *)
Lemma train_spec x y nb bs es ox oy s :
  randperm_ok → 0 < nb →
  heap s !! x = Some ox → shape (value_of ox) = [nb; bs; 1] →
  wf_tensor (value_of ox) →
  heap s !! y = Some oy → shape (value_of oy) = [nb; bs; 1] →
  wf_tensor (value_of oy) →
  ∃ lw lb logs s',
    let model := Module ClsLinear [("w", lw); ("b", lb)] [] [] in
    train x y nb es s = Ok (Env x y model (Optimizer [lw; lb]), s')
    ∧ (∃ s1, Linear_init 1 1 s = Ok (model, s1))
    ∧ lw ≠ lb ∧ (lw ∉ dom (heap s)) ∧ (lb ∉ dom (heap s))
    ∧ linear_layer (heap s') model 1 1 lw lb
    ∧ (∀ l, l ≠ lw → l ≠ lb → heap s' !! l = heap s !! l)
    ∧ length logs = es
    ∧ Forall (epoch_ok model [lw; lb] (heap s') (value_of ox) (value_of oy) nb) logs
    ∧ trace s' = trace s ++ flat_map events_of_epoch logs
    ∧ history s' = e_appended <$> logs.
Proof.
  intros Hperm Hn Hox Hsx Hwx Hoy Hsy Hwy.
  destruct (Linear_init_frame 1 1 s) as (lw & lb & s1 & E1 & HL & Hw & Hb & Hfr & Htr1).
  assert (lw ≠ lb) as Hne by (by destruct HL as (_ & ? & _)).
  assert (∀ l o, heap s !! l = Some o → l ≠ lw ∧ l ≠ lb) as Hold.
  { intros l o Hl. split; intros ->.
    - apply Hw. apply elem_of_dom. by eexists.
    - apply Hb. apply elem_of_dom. by eexists. }
  destruct (Hold x ox Hox) as [Hx1 Hx2]. destruct (Hold y oy Hoy) as [Hy1 Hy2].
  set (model := Module ClsLinear [("w", lw); ("b", lb)] [] []) in *.
  set (s2 := set_history [] s1).
  destruct (epochs_spec model (Optimizer [lw; lb]) x y nb bs 1 1 lw lb (heap s2)
              ox oy es Hperm Hn eq_refl) with (loss := @None tvar) (s := s2)
    as (logs & loss' & s' & E & Hlen & Hoks & Htr & Hh & Hu); try done.
  { rewrite !not_elem_of_cons. split_and!; try done. apply not_elem_of_nil. }
  { rewrite !not_elem_of_cons. split_and!; try done. apply not_elem_of_nil. }
  { apply updates_only_refl. }
  { cbn. by rewrite Hfr. }
  { cbn. by rewrite Hfr. }
  exists lw, lb, logs, s'. cbn zeta. split_and!; try done.
  - unfold train.
    rewrite (bind_Ok _ _ s model s1) by exact E1.
    rewrite (bind_Ok _ _ s1 (Optimizer [lw; lb]) s1)
      by (apply lift_Ok; unfold model; by rewrite parameters_Linear).
    rewrite (bind_Ok _ _ s1 tt s2) by done.
    by rewrite (bind_Ok _ _ s2 loss' s') by exact E.
  - by exists s1.
  - by eapply linear_layer_updates.
  - intros l H1 H2. rewrite <- (Hfr l H1 H2).
    apply (updates_only_ne _ _ _ _ Hu).
    rewrite !not_elem_of_cons. split_and!; try done. apply not_elem_of_nil.
  - eapply Forall_impl; [exact Hoks|]. intros e He.
    by eapply epoch_ok_store.
  - rewrite Htr. cbn. by rewrite Htr1.
Qed.

(** ** The notebook *)

Lemma notebook_spec s :
  randperm_ok →
  ∃ x y ox oy s1 lw lb logs s',
    let model := Module ClsLinear [("w", lw); ("b", lb)] [] [] in
    make_data n_batches batch_size s = Ok ((x, y), s1)
    ∧ train x y n_batches epoches s1 = Ok (Env x y model (Optimizer [lw; lb]), s')
    ∧ notebook s = Ok (Env x y model (Optimizer [lw; lb]), s')
    ∧ (∃ s2, Linear_init 1 1 s1 = Ok (model, s2))
    ∧ heap s1 !! x = Some ox ∧ heap s1 !! y = Some oy
    ∧ shape (value_of ox) = [n_batches; batch_size; 1]
    ∧ shape (value_of oy) = [n_batches; batch_size; 1]
    ∧ lw ≠ lb ∧ (lw ∉ dom (heap s1)) ∧ (lb ∉ dom (heap s1))
    ∧ linear_layer (heap s') model 1 1 lw lb
    ∧ (∀ l, l ≠ lw → l ≠ lb → heap s' !! l = heap s1 !! l)
    ∧ length logs = epoches
    ∧ Forall (epoch_ok model [lw; lb] (heap s') (value_of ox) (value_of oy)
                n_batches) logs
    ∧ trace s' = trace s ++ flat_map events_of_epoch logs
    ∧ history s' = e_appended <$> logs.
Proof.
  intros Hperm.
  destruct (make_data_spec n_batches batch_size s)
    as (x & y & ox & oy & s1 & Ed & Hne & _ & _ & Hdx & Hdy & Hox & Hoy & _ & Htr & _).
  destruct Hdx as (ox' & Hox' & Hsx & Hwx & _).
  assert (ox' = ox) as -> by congruence.
  destruct Hdy as (oy' & Hoy' & Hsy & Hwy & _).
  assert (oy' = oy) as -> by congruence.
  assert (0 < n_batches) as Hn by (unfold n_batches; lia).
  destruct (train_spec x y n_batches batch_size epoches ox oy s1
              Hperm Hn Hox Hsx Hwx Hoy Hsy Hwy)
    as (lw & lb & logs & s' & Et & Hinit & Hlne & Hw & Hb & HL & Hfr & Hlen & Hoks & Htr' & Hh).
  exists x, y, ox, oy, s1, lw, lb, logs, s'. cbn zeta in *.
  split_and!; try done.
  - unfold notebook. by rewrite (bind_Ok _ _ s (x, y) s1) by exact Ed.
  - by rewrite Htr', Htr.
Qed.

(** Every epoch of a log has [n] batches. *)
Lemma epoch_ok_batches model ps h xt yt n e :
  epoch_ok model ps h xt yt n e → length (e_batches e) = n.
Proof.
  intros (Hp & Hb & _). apply Forall2_length in Hb.
  rewrite <- Hb. by rewrite Hp, length_seq.
Qed.

(** C3. The notebook runs to its end, and the trace of its training loop
    is, epoch after epoch ([epoches] of them), the draw of the permutation,
    then for every batch ([n_batches] of them) in this order: the forward
    pass of the model on the batch input, the loss against the batch
    target, [zero_grad], [backward], one optimizer step; then the append to
    the history.  The input and the target of batch [t] are row [t] of the
    shuffled [x] and of the shuffled [y], and the loss of a batch is the
    criterion on the model's prediction for that batch, in the store of
    that moment. *)
Theorem training_loop_order (s : state) :
  randperm_ok →
  ∃ env s' logs ox oy,
    notebook s = Ok (env, s')
    ∧ heap s' !! v_x env = Some ox ∧ heap s' !! v_y env = Some oy
    ∧ length logs = epoches
    ∧ trace s' = trace s ++ flat_map events_of_epoch logs
    ∧ Forall (λ e,
        length (e_batches e) = n_batches
        ∧ Forall2 (batch_is (value_of ox) (value_of oy))
            (e_perm e) (e_batches e)
        ∧ Forall (λ r,
            loss_of (b_store r) (v_model env) (b_input r) (b_target r)
            = Ok (b_loss r)) (e_batches e)) logs.
Proof.
  intros Hperm.
  destruct (notebook_spec s Hperm)
    as (x & y & ox & oy & s1 & lw & lb & logs & s' & _ & _ & En & _ & Hox & Hoy & _ & _
        & _ & Hw & Hb & _ & Hfr & Hlen & Hoks & Htr & _).
  cbn zeta in *.
  assert (∀ l o, heap s1 !! l = Some o → heap s' !! l = Some o) as Hkeep.
  { intros l o Hl. rewrite Hfr; [done| |]; intros ->.
    - apply Hw. apply elem_of_dom. by eexists.
    - apply Hb. apply elem_of_dom. by eexists. }
  exists (Env x y (Module ClsLinear [("w", lw); ("b", lb)] [] []) (Optimizer [lw; lb])),
    s', logs, ox, oy.
  cbn [v_x v_y v_model]. split; [exact En|].
  split_and!; try done; try by apply Hkeep.
  eapply Forall_impl; [exact Hoks|]. intros e He. split_and!.
  - by eapply epoch_ok_batches.
  - by destruct He as (_ & ? & _).
  - destruct He as (_ & _ & Hl & _).
    eapply Forall_impl; [exact Hl|]. by intros r [_ ?].
Qed.

(** C4. In every epoch the loop draws one permutation of the batch indices
    (the [EvShuffle] that opens the epoch in the trace), and batch number
    [t] of the epoch is row [perm[t]] of [x] paired with row [perm[t]] of
    [y]: the same index for the input and for the target, in every
    epoch. *)
Theorem shuffle_keeps_pairs (s : state) :
  randperm_ok →
  ∃ env s1 s' logs ox oy,
    make_data n_batches batch_size s = Ok ((v_x env, v_y env), s1)
    ∧ notebook s = Ok (env, s')
    ∧ heap s1 !! v_x env = Some ox ∧ heap s1 !! v_y env = Some oy
    ∧ length logs = epoches
    ∧ trace s' = trace s ++ flat_map events_of_epoch logs
    ∧ Forall (λ e,
        Permutation (e_perm e) (seq 0 n_batches)
        ∧ Forall2 (batch_is (value_of ox) (value_of oy))
            (e_perm e) (e_batches e)) logs.
Proof.
  intros Hperm.
  destruct (notebook_spec s Hperm)
    as (x & y & ox & oy & s1 & lw & lb & logs & s' & Ed & _ & En & _ & Hox & Hoy & _ & _
        & _ & _ & _ & _ & _ & Hlen & Hoks & Htr & _).
  cbn zeta in *.
  exists (Env x y (Module ClsLinear [("w", lw); ("b", lb)] [] []) (Optimizer [lw; lb])),
    s1, s', logs, ox, oy.
  split; [exact Ed|]. split; [exact En|]. split_and!; try done.
  eapply Forall_impl; [exact Hoks|]. by intros e (? & ? & _).
Qed.

(** C9. The notebook runs to its end with a history of exactly [epoches]
    = 200 entries, the values appended at the end of the epochs in order;
    the entry of an epoch is the loss of the last of its [n_batches]
    batches alone: the criterion on the model's prediction for that one
    batch, in the store of that moment. *)
Theorem history_last_batch_loss (s : state) :
  randperm_ok →
  ∃ env s' logs,
    notebook s = Ok (env, s')
    ∧ length (history s') = 200
    ∧ length logs = epoches
    ∧ trace s' = trace s ++ flat_map events_of_epoch logs
    ∧ Forall2 (λ v e,
        e_appended e = v
        ∧ length (e_batches e) = n_batches
        ∧ ∃ r, last (e_batches e) = Some r
               ∧ v = b_loss r
               ∧ loss_of (b_store r) (v_model env) (b_input r) (b_target r)
                 = Ok v) (history s') logs.
Proof.
  intros Hperm.
  destruct (notebook_spec s Hperm)
    as (x & y & ox & oy & s1 & lw & lb & logs & s' & _ & _ & En & _ & _ & _ & _ & _
        & _ & _ & _ & _ & _ & Hlen & Hoks & Htr & Hh).
  cbn zeta in *. eexists _, s', logs. split; [exact En|].
  split_and!; try done.
  - by rewrite Hh, length_fmap, Hlen.
  - rewrite Hh. apply Forall2_fmap_l, Forall_Forall2_diag.
    eapply Forall_impl; [exact Hoks|]. intros e He. cbn.
    split; [done|]. split; [by eapply epoch_ok_batches|].
    destruct He as (_ & _ & Hl & r & Hr & Ha).
    exists r. split_and!; try done.
    rewrite Forall_forall in Hl.
    destruct (Hl r (last_Some_elem_of _ _ Hr)) as [_ Hlo]. by rewrite Ha.
Qed.

Lemma step_two lw lb s :
  lw ≠ lb →
  ∃ s', step (Optimizer [lw; lb]) s = Ok (tt, s')
    ∧ (∀ l, l ≠ lw → l ≠ lb → heap s' !! l = heap s !! l)
    ∧ (∀ l o, l ∈ [lw; lb] → heap s !! l = Some o →
         heap s' !! l
         = Some (match grad o with
                 | Some g =>
                     TObj (Tensor (shape (value_of o))
                             ((update_scalars (default [] (opt_state s !! l))
                                 (data (value_of o)) (data g)).*1))
                          (grad o) (requires_grad o)
                 | None => o
                 end)).
Proof.
  intros Hne. eexists. split; [reflexivity|]. cbn [foldl heap log params].
  split.
  - intros l H1 H2.
    destruct (step_param_lookup_ne (step_param s lw) lb l H2) as [-> _].
    by destruct (step_param_lookup_ne s lw l H1) as [-> _].
  - intros l o Hl Ho.
    apply elem_of_cons in Hl as [->|Hl].
    + destruct (step_param_lookup_ne (step_param s lw) lb lw Hne) as [-> _].
      by apply step_param_lookup_eq.
    + apply list_elem_of_singleton in Hl as ->.
      assert (lb ≠ lw) as Hne' by congruence.
      destruct (step_param_lookup_ne s lw lb Hne') as [E1 E2].
      rewrite <- E2. apply step_param_lookup_eq. by rewrite E1.
Qed.

(** C6. The optimizer of the notebook holds the model's two parameters [w]
    and [b] and no other object.  One step of it returns, changes no other
    object of the store, and replaces the scalars of [w] and of [b] by what
    the update rule makes of them and of the gradient in their [.grad] (a
    parameter without gradient is left as it is).  The whole training loop
    leaves every tensor object that existed before it as it was, the
    dataset tensors [x] and [y] among them. *)
Theorem training_frame (s : state) :
  randperm_ok →
  ∃ env s1 s' lw lb ox oy,
    make_data n_batches batch_size s = Ok ((v_x env, v_y env), s1)
    ∧ train (v_x env) (v_y env) n_batches epoches s1 = Ok (env, s')
    ∧ notebook s = Ok (env, s')
    ∧ parameters (v_model env) = [lw; lb]
    ∧ params (v_optimizer env) = [lw; lb]
    ∧ (∀ s2, ∃ s3,
         step (v_optimizer env) s2 = Ok (tt, s3)
         ∧ (∀ l, l ≠ lw → l ≠ lb → heap s3 !! l = heap s2 !! l)
         ∧ (∀ l o, l ∈ [lw; lb] → heap s2 !! l = Some o →
              heap s3 !! l
              = Some (match grad o with
                      | Some g =>
                          TObj (Tensor (shape (value_of o))
                                  ((update_scalars
                                      (default [] (opt_state s2 !! l))
                                      (data (value_of o)) (data g)).*1))
                               (grad o) (requires_grad o)
                      | None => o
                      end)))
    ∧ (∀ l o, heap s1 !! l = Some o → heap s' !! l = Some o)
    ∧ heap s1 !! v_x env = Some ox ∧ heap s' !! v_x env = Some ox
    ∧ heap s1 !! v_y env = Some oy ∧ heap s' !! v_y env = Some oy.
Proof.
  intros Hperm.
  destruct (notebook_spec s Hperm)
    as (x & y & ox & oy & s1 & lw & lb & logs & s' & Ed & Et & En & _ & Hox & Hoy & _ & _
        & Hne & Hw & Hb & _ & Hfr & _).
  cbn zeta in *.
  assert (∀ l o, heap s1 !! l = Some o → heap s' !! l = Some o) as Hkeep.
  { intros l o Hl. rewrite Hfr; [done| |]; intros ->.
    - apply Hw. apply elem_of_dom. by eexists.
    - apply Hb. apply elem_of_dom. by eexists. }
  exists (Env x y (Module ClsLinear [("w", lw); ("b", lb)] [] []) (Optimizer [lw; lb])),
    s1, s', lw, lb, ox, oy.
  cbn [v_x v_y v_model v_optimizer params].
  split_and!; try done.
  - by apply parameters_Linear.
  - intros s2. by apply step_two.
  - by apply Hkeep.
  - by apply Hkeep.
Qed.

(** The prediction of a layer with one input and one unit. *)
Lemma Linear_forward_scalar h self lw lb :
  linear_layer h self 1 1 lw lb →
  ∃ ow ob w0 b0,
    h !! lw = Some ow ∧ value_of ow = Tensor [1; 1] [w0]
    ∧ h !! lb = Some ob ∧ value_of ob = Tensor [1] [b0]
    ∧ ∀ x0, rmap tval (module_call h self (const (Tensor [1] [x0])))
            = Ok (Tensor [1] [fadd (fmul x0 w0) b0]).
Proof.
  intros HL. destruct (linear_layer_getattr _ _ _ _ _ _ HL) as [Hgw Hgb].
  assert (cls self = ClsLinear) as Hc by (by destruct HL as (-> & _)).
  destruct HL as (_ & _ & (ow & How & Hsw & Hww & _) & (ob & Hob & Hsb & Hwb & _)).
  unfold wf_tensor in *.
  destruct (value_of ow) as [shw dw] eqn:Ew. destruct (value_of ob) as [shb db] eqn:Eb.
  simpl in *. subst shw shb.
  destruct dw as [|w0 [|]]; try done. destruct db as [|b0 [|]]; try done.
  exists ow, ob, w0, b0. split_and!; try done.
  intros x0. rewrite module_call_Linear by done.
  rewrite (Linear_forward_params h self lw lb ow ob _ Hgw Hgb How Hob).
  by rewrite Ew, Eb.
Qed.

(** C7. The model that the notebook trains is what [Linear(units=1,
    input_dim=1)] returned: a Linear layer whose [w] has shape [(1, 1)]
    and whose [b] has shape [(1,)], before and after training.  With [w0]
    and [b0] the scalars of the trained parameters, its prediction for a
    one-element input [x0] is the one-element tensor of [w0 * x0 + b0]
    (the product being commutative). *)
Theorem notebook_model_is_Linear (s : state) :
  randperm_ok → (∀ a b, fmul a b = fmul b a) →
  ∃ env s1 s2 s' lw lb ow ob w0 b0,
    notebook s = Ok (env, s')
    ∧ Linear_init 1 1 s1 = Ok (v_model env, s2)
    ∧ linear_layer (heap s2) (v_model env) 1 1 lw lb
    ∧ linear_layer (heap s') (v_model env) 1 1 lw lb
    ∧ heap s' !! lw = Some ow ∧ value_of ow = Tensor [1; 1] [w0]
    ∧ heap s' !! lb = Some ob ∧ value_of ob = Tensor [1] [b0]
    ∧ ∀ x0, rmap tval (module_call (heap s') (v_model env) (const (Tensor [1] [x0])))
            = Ok (Tensor [1] [fadd (fmul w0 x0) b0]).
Proof.
  intros Hperm Hcomm.
  destruct (notebook_spec s Hperm)
    as (x & y & ox & oy & s1 & lw & lb & logs & s' & _ & _ & En & [s2 Ei] & _ & _ & _ & _
        & _ & _ & _ & HL & _).
  cbn zeta in *.
  destruct (Linear_init_frame 1 1 s1) as (lw' & lb' & s2' & Ei' & HL2 & _).
  rewrite Ei in Ei'. injection Ei' as <- <- <-.
  destruct (Linear_forward_scalar _ _ _ _ HL) as (ow & ob & w0 & b0 & How & Ew & Hob & Eb & Hf).
  exists (Env x y (Module ClsLinear [("w", lw); ("b", lb)] [] []) (Optimizer [lw; lb])),
    s1, s2, s', lw, lb, ow, ob, w0, b0.
  cbn [v_model]. split_and!; try done.
  intros x0. by rewrite (Hcomm w0 x0).
Qed.

(** * Further properties of the notebook's code *)

(** ** The data of a forward pass *)

Lemma numel_reverse s : numel (reverse s) = numel s.
Proof.
  unfold numel. induction s as [|d s IH]; [done|].
  rewrite reverse_cons, foldr_app. simpl. rewrite <- IH.
  generalize (reverse s). intros l. induction l as [|e l IHl]; simpl; lia.
Qed.

Lemma bidx_rev_same s i : i < numel s → bidx_rev s s i = i.
Proof.
  revert i. induction s as [|d s IH]; intros i Hi; simpl in *; [lia|].
  assert (d ≠ 0) as Hd by (intros ->; lia).
  assert ((if d =? 1 then 0 else i mod d) = i mod d) as ->.
  { destruct (d =? 1) eqn:E; [|done]. apply Nat.eqb_eq in E. subst d.
    by rewrite Nat.mod_1_r. }
  rewrite IH.
  - pose proof (Nat.div_mod_eq i d). lia.
  - apply Nat.Div0.div_lt_upper_bound. unfold numel in *. lia.
Qed.

Lemma bidx_same s i : i < numel s → bidx s s i = i.
Proof. intros Hi. unfold bidx. apply bidx_rev_same. by rewrite numel_reverse. Qed.

Lemma bidx_last s u i : bidx [u] (s ++ [u]) i = i mod u.
Proof.
  unfold bidx. rewrite reverse_snoc, reverse_singleton. simpl.
  destruct (u =? 1) eqn:E.
  - apply Nat.eqb_eq in E. subst u. rewrite Nat.mod_1_r. lia.
  - destruct (reverse s); lia.
Qed.

(** Adding a vector to a tensor whose last dimension has its size adds it
    to every row. *)
Lemma tadd_last_data (a b : tensor) s u :
  shape a = s ++ [u] → shape b = [u] →
  tadd a b
  = Ok (Tensor (s ++ [u])
          (map (λ q, fadd (at_ a q) (at_ b (q mod u))) (seq 0 (numel (s ++ [u]))))).
Proof.
  intros Ha Hb. unfold tadd, broadcast_op. rewrite Ha, Hb, broadcast_shapes_last.
  f_equal. f_equal. apply map_ext_in. intros q Hq. apply in_seq in Hq.
  rewrite bidx_last, bidx_same by lia. done.
Qed.

(** Adding two tensors of one shape adds them scalar by scalar. *)
Lemma tadd_same_data (a b : tensor) :
  shape a = shape b →
  tadd a b
  = Ok (Tensor (shape a)
          (map (λ q, fadd (at_ a q) (at_ b q)) (seq 0 (numel (shape a))))).
Proof.
  intros E. unfold tadd, broadcast_op. rewrite <- E, broadcast_shapes_refl.
  f_equal. f_equal. apply map_ext_in. intros q Hq. apply in_seq in Hq.
  by rewrite bidx_same by lia.
Qed.

(** The scalar product of row [i] of [a] and column [j] of [b]. *)
Lemma matmul_2d_data (a b : tensor) m k n :
  shape a = [m; k] → shape b = [k; n] →
  matmul a b
  = Ok (Tensor [m; n]
          (flat_map (λ i,
             map (λ j, fsum (map (λ l, fmul (at_ a (i * k + l)) (at_ b (l * n + j)))
                                 (seq 0 k)))
                 (seq 0 n))
             (seq 0 m))).
Proof.
  intros Ha Hb. unfold matmul. rewrite Ha, Hb. cbn.
  rewrite Nat.eqb_refl. cbn. by rewrite app_nil_r.
Qed.

Lemma matmul_1d_data (a b : tensor) k n :
  shape a = [k] → shape b = [k; n] →
  matmul a b
  = Ok (Tensor [n]
          (map (λ j, fsum (map (λ l, fmul (at_ a l) (at_ b (l * n + j))) (seq 0 k)))
               (seq 0 n))).
Proof.
  intros Ha Hb. unfold matmul. rewrite Ha, Hb. cbn.
  rewrite Nat.eqb_refl. cbn. by rewrite !app_nil_r.
Qed.

Lemma nth_map_seq (f : nat → F) a n i :
  i < n → nth i (map f (seq a n)) fzero = f (a + i).
Proof.
  revert a i. induction n as [|n IH]; intros a i Hi; [lia|].
  destruct i as [|i]; simpl.
  - f_equal. lia.
  - rewrite IH by lia. f_equal. lia.
Qed.

Lemma nth_grid (f : nat → nat → F) a m n i j :
  i < m → j < n →
  nth (i * n + j) (flat_map (λ i, map (f i) (seq 0 n)) (seq a m)) fzero
  = f (a + i) j.
Proof.
  revert a i. induction m as [|m IH]; intros a i Hi Hj; [lia|].
  cbn [seq flat_map]. destruct i as [|i].
  - rewrite app_nth1 by (rewrite length_map, length_seq; lia).
    cbn [Nat.mul Nat.add]. rewrite nth_map_seq by done. f_equal. lia.
  - rewrite app_nth2 by (rewrite length_map, length_seq; lia).
    rewrite length_map, length_seq.
    replace (S i * n + j - n) with (i * n + j) by lia.
    rewrite IH by lia. f_equal. lia.
Qed.

Lemma nth_row (l : list F) r o j :
  j < r → nth j (take r (drop o l)) fzero = nth (o + j) l fzero.
Proof.
  intros Hj. rewrite !nth_lookup, lookup_take_lt, lookup_drop by done. done.
Qed.

(** The forward pass on a 2-D input, scalar by scalar. *)
Lemma Linear_forward_2d h self k u lw lb ow ob x m :
  linear_layer h self k u lw lb → h !! lw = Some ow → h !! lb = Some ob →
  shape (tval x) = [m; k] →
  ∃ g,
    Linear_forward h self x
    = Ok (TVar (Tensor [m; u]
            (map (λ q,
               fadd (fsum (map (λ l, fmul (at_ (tval x) (q / u * k + l))
                                          (at_ (value_of ow) (l * u + q mod u)))
                               (seq 0 k)))
                    (at_ (value_of ob) (q mod u)))
               (seq 0 (m * u)))) g).
Proof.
  intros HL How Hob Hx.
  destruct (Linear_forward_ok h self k u lw lb x [m] HL Hx)
    as (ow' & ob' & xw & d & How' & Hob' & Hm & Ha & Hf).
  assert (ow' = ow) as -> by congruence. assert (ob' = ob) as -> by congruence.
  destruct HL as (_ & _ & (? & How2 & Hsw & _) & (? & Hob2 & Hsb & _)).
  assert (x0 = ow) as -> by congruence. assert (x1 = ob) as -> by congruence.
  rewrite (matmul_2d_data _ _ m k u Hx Hsw) in Hm. injection Hm as <-.
  match type of Ha with tadd ?t _ = _ =>
    rewrite (tadd_last_data t (value_of ob) [m] u eq_refl Hsb) in Ha end.
  injection Ha as <-. rewrite Hf. eexists. f_equal. f_equal. f_equal.
  rewrite Nat.mul_1_r.
  apply map_ext_in. intros q Hq. apply in_seq in Hq. f_equal.
  assert (u ≠ 0) as Hu by (intros ->; lia).
  unfold at_ at 1. cbn [data].
  rewrite (Nat.div_mod_eq q u) at 1.
  replace (u * (q / u) + q mod u) with (q / u * u + q mod u) by lia.
  rewrite (nth_grid (λ i j, fsum (map (λ l, fmul (at_ (tval x) (i * k + l))
                                                 (at_ (value_of ow) (l * u + j)))
                                      (seq 0 k))) 0 m u).
  - done.
  - apply Nat.Div0.div_lt_upper_bound. lia.
  - by apply Nat.mod_upper_bound.
Qed.

Lemma Linear_forward_1d h self k u lw lb ow ob x :
  linear_layer h self k u lw lb → h !! lw = Some ow → h !! lb = Some ob →
  shape (tval x) = [k] →
  ∃ g,
    Linear_forward h self x
    = Ok (TVar (Tensor [u]
            (map (λ j,
               fadd (fsum (map (λ l, fmul (at_ (tval x) l)
                                          (at_ (value_of ow) (l * u + j)))
                               (seq 0 k)))
                    (at_ (value_of ob) j))
               (seq 0 u))) g).
Proof.
  intros HL How Hob Hx.
  destruct (Linear_forward_ok h self k u lw lb x [] HL Hx)
    as (ow' & ob' & xw & d & How' & Hob' & Hm & Ha & Hf).
  assert (ow' = ow) as -> by congruence. assert (ob' = ob) as -> by congruence.
  destruct HL as (_ & _ & (? & How2 & Hsw & _) & (? & Hob2 & Hsb & _)).
  assert (x0 = ow) as -> by congruence. assert (x1 = ob) as -> by congruence.
  rewrite (matmul_1d_data _ _ k u Hx Hsw) in Hm. injection Hm as <-.
  match type of Ha with tadd ?t _ = _ =>
    rewrite (tadd_last_data t (value_of ob) [] u eq_refl Hsb) in Ha end.
  injection Ha as <-. rewrite Hf. eexists. f_equal. f_equal. f_equal.
  rewrite Nat.mul_1_r.
  apply map_ext_in. intros q Hq. apply in_seq in Hq.
  rewrite Nat.mod_small by lia. f_equal.
  unfold at_ at 1. cbn [data]. by rewrite nth_map_seq by lia.
Qed.

(** X1. The forward pass of a Linear layer with one input on a batch [x]
    of [m] rows of one scalar: the result has shape [(m, units)], holds
    [m * units] scalars, and its scalar [(i, j)] is [x[i] * w[0][j]], plus
    [b[j]]: the bias is added to every row. *)
Theorem Linear_forward_entries (h : gmap loc tobj) (self : module)
    (units : nat) (lw lb : loc) (ow ob : tobj) (x : tvar) (m : nat) :
  linear_layer h self 1 units lw lb →
  h !! lw = Some ow → h !! lb = Some ob →
  shape (tval x) = [m; 1] →
  ∃ r,
    Linear_forward h self x = Ok r
    ∧ shape (tval r) = [m; units] ∧ wf_tensor (tval r)
    ∧ ∀ i j, i < m → j < units →
        at_ (tval r) (i * units + j)
        = fadd (fmul (at_ (tval x) i) (at_ (value_of ow) j))
               (at_ (value_of ob) j).
Proof.
  intros HL How Hob Hx.
  destruct (Linear_forward_2d h self 1 units lw lb ow ob x m HL How Hob Hx)
    as [g E].
  eexists. split; [exact E|]. cbn [tval shape]. split; [done|]. split.
  - unfold wf_tensor. cbn. rewrite length_map, length_seq. lia.
  - intros i j Hi Hj. unfold at_ at 1. cbn [data].
    rewrite nth_map_seq by nia. cbn [Nat.add].
    assert (units ≠ 0) as Hu by lia.
    replace ((i * units + j) / units) with i.
    2:{ rewrite Nat.div_add_l by done. rewrite Nat.div_small by done. lia. }
    replace ((i * units + j) mod units) with j.
    2:{ rewrite Nat.add_comm, Nat.Div0.mod_add. by rewrite Nat.mod_small. }
    cbn [seq map fsum foldl]. by rewrite Nat.mul_1_r, Nat.add_0_r.
Qed.

(** X2. A Linear layer with one input treats the rows of a batch
    independently: row [i] of the prediction for a batch of rows of one
    scalar is the prediction for row [i] of the batch. *)
Theorem Linear_forward_rowwise (h : gmap loc tobj) (self : module)
    (units : nat) (lw lb : loc) (x : tvar) (m i : nat) :
  linear_layer h self 1 units lw lb →
  shape (tval x) = [m; 1] → i < m →
  ∃ r xi ri,
    Linear_forward h self x = Ok r
    ∧ select (tval x) i = Ok xi
    ∧ Linear_forward h self (const xi) = Ok ri
    ∧ select (tval r) i = Ok (tval ri).
Proof.
  intros HL Hx Hi. set (input_dim := 1) in HL, Hx. clearbody input_dim.
  destruct HL as (Hs & Hne & (ow & How & Hw) & (ob & Hob & Hb)).
  assert (linear_layer h self input_dim units lw lb) as HL.
  { split_and!; try done; by eexists. }
  destruct (Linear_forward_2d h self input_dim units lw lb ow ob x m HL How Hob Hx)
    as [g E].
  pose proof (select_ok (tval x) m [input_dim] i Hx Hi) as Ex.
  set (xi := Tensor [input_dim] (row_data (tval x) (numel [input_dim]) i)) in *.
  destruct (Linear_forward_1d h self input_dim units lw lb ow ob (const xi)
              HL How Hob eq_refl) as [gi Ei].
  eexists _, xi, _. split; [exact E|]. split; [exact Ex|]. split; [exact Ei|].
  cbn [tval]. erewrite select_ok; [|reflexivity|exact Hi].
  f_equal. f_equal. unfold row_data. cbn [data shape numel foldr].
  rewrite !Nat.mul_1_r.
  apply (nth_ext _ _ fzero fzero).
  - rewrite length_take, length_drop, !length_map, !length_seq. nia.
  - intros j Hj.
    rewrite length_take, length_drop, length_map, length_seq in Hj.
    assert (j < units) as Hju by lia.
    assert (units ≠ 0) as Hu by lia.
    rewrite nth_row by done. rewrite !nth_map_seq by nia. cbn [Nat.add].
    replace ((i * units + j) / units) with i.
    2:{ rewrite Nat.div_add_l by done. rewrite Nat.div_small by done. lia. }
    replace ((i * units + j) mod units) with j.
    2:{ rewrite Nat.add_comm, Nat.Div0.mod_add. by rewrite Nat.mod_small. }
    f_equal. f_equal. apply map_ext_in. intros l Hl. apply in_seq in Hl.
    f_equal. unfold at_, xi, row_data. cbn [data tval const numel foldr].
    rewrite Nat.mul_1_r. by rewrite nth_row by lia.
Qed.

(** ** Gradients from one batch to the next *)




(** ** The loop on other datasets *)

Lemma events_of_epoch_length e :
  length (events_of_epoch e) = 5 * length (e_batches e) + 2.
Proof.
  unfold events_of_epoch. cbn [length]. rewrite length_app. cbn [length].
  assert (length (flat_map events_of_batch (e_batches e))
          = 5 * length (e_batches e)) as ->; [|lia].
  induction (e_batches e) as [|r l IH]; [done|].
  cbn [flat_map]. rewrite length_app, IH. cbn [length events_of_batch]. lia.
Qed.

(** X4. The training loop on any Linear layer and any dataset of [n > 0]
    batches whose shapes fit the layer ([x] of shape [(n, bs, input_dim)],
    [y] of shape [(n, bs, units)]) and whose tensors do not require grad,
    as tensors of data do not: it returns; the layer keeps its shapes;
    no object but [w] and [b] changes; the history keeps its entries and
    gets one more per epoch; and every epoch does [5 n + 2] things (the
    shuffle, five steps per batch, the append). *)
Theorem epochs_run (model : module) (opt : optimizer) (x y : loc)
    (n bs k u : nat) (lw lb : loc) (ox oy : tobj) (es : nat)
    (loss : option tvar) (s : state) :
  randperm_ok → 0 < n → params opt = [lw; lb] →
  linear_layer (heap s) model k u lw lb →
  x ∉ [lw; lb] → y ∉ [lw; lb] →
  heap s !! x = Some ox → shape (value_of ox) = [n; bs; k] →
  wf_tensor (value_of ox) → requires_grad ox = false →
  heap s !! y = Some oy → shape (value_of oy) = [n; bs; u] →
  wf_tensor (value_of oy) → requires_grad oy = false →
  ∃ loss' s' vs,
    epochs model opt x y n es loss s = Ok (loss', s')
    ∧ linear_layer (heap s') model k u lw lb
    ∧ (∀ l, l ≠ lw → l ≠ lb → heap s' !! l = heap s !! l)
    ∧ history s' = history s ++ vs ∧ length vs = es
    ∧ length (trace s') = length (trace s) + es * (5 * n + 2).
Proof.
  intros Hperm Hn Hopt HL Hx Hy Hox Hsx Hwx _ Hoy Hsy Hwy _.
  destruct (epochs_spec model opt x y n bs k u lw lb (heap s) ox oy es
              Hperm Hn Hopt Hx Hy Hsx Hwx Hsy Hwy loss s HL
              (updates_only_refl _ _) Hox Hoy)
    as (logs & loss' & s' & E & Hlen & Hoks & Htr & Hh & Hu).
  exists loss', s', (e_appended <$> logs). split_and!; try done.
  - by eapply linear_layer_updates.
  - intros l H1 H2. apply (updates_only_ne _ _ _ _ Hu).
    rewrite !not_elem_of_cons. split_and!; try done. apply not_elem_of_nil.
  - by rewrite length_fmap.
  - rewrite Htr, length_app. f_equal. rewrite <- Hlen. clear -Hoks.
    induction Hoks as [|e logs He _ IH]; [done|].
    cbn [flat_map length]. rewrite length_app, IH, events_of_epoch_length.
    rewrite (epoch_ok_batches _ _ _ _ _ _ _ He). lia.
Qed.

(** An epoch over no batch: the shuffle, then the append of the loss that
    the loop found bound, if it found one. *)
Lemma epoch_no_batches model opt x y ox oy loss s :
  randperm_ok →
  heap s !! x = Some ox → shape (value_of ox) ≠ [] →
  heap s !! y = Some oy → shape (value_of oy) ≠ [] →
  ∃ g,
    epoch model opt x y 0 loss s
    = match loss with
      | None => Err NameError
      | Some l =>
          match item (tval l) with
          | Ok v =>
              Ok (Some l,
                  log (EvAppend v)
                    (set_history (history s ++ [v])
                       (log (EvShuffle []) (set_rng g s))))
          | Err e => Err e
          end
      end.
Proof.
  intros Hperm Hox Hsx Hoy Hsy.
  pose proof (Hperm (rng s) 0) as Hp.
  destruct (randperm_gen (rng s) 0) as [p g] eqn:Eg. simpl in Hp.
  apply Permutation_sym, Permutation_nil in Hp. subst p.
  exists g. unfold epoch.
  set (s2 := log (EvShuffle []) (set_rng g s)).
  rewrite (bind_Ok _ _ _ [] s2) by (unfold randperm; by rewrite Eg).
  rewrite (bind_Ok _ _ s2 (TVar (value_of ox)
             (if requires_grad ox then Leaf x (value_of ox) else Const (value_of ox))) s2)
    by (unfold read; change (heap s2) with (heap s); by rewrite Hox).
  destruct (shape (value_of ox)) as [|nx rx] eqn:Ex; [done|].
  destruct (shape (value_of oy)) as [|ny ry] eqn:Ey; [done|].
  erewrite (bind_Ok _ _ s2 _ s2)
    by (apply lift_Ok; unfold index; cbn [tval]; by rewrite Ex).
  rewrite (bind_Ok _ _ s2 (TVar (value_of oy)
             (if requires_grad oy then Leaf y (value_of oy) else Const (value_of oy))) s2)
    by (unfold read; change (heap s2) with (heap s); by rewrite Hoy).
  erewrite (bind_Ok _ _ s2 _ s2)
    by (apply lift_Ok; unfold index; cbn [tval]; by rewrite Ey).
  cbn [seq batches]. rewrite (bind_Ok _ _ s2 loss s2) by done.
  destruct loss as [l|]; [|done].
  unfold bind at 1, lift. by destruct (item (tval l)).
Qed.

(** X5. The loop over no batch at all.  The inner loop binds nothing, so
    [history.append(loss.item())] reads the [loss] that the loop found: when
    [loss] is unbound, as in a new kernel, the first epoch raises
    [NameError]; when [loss] is bound to a one-element tensor, left by an
    earlier run, nothing is raised, no tensor object changes, and every
    epoch appends the value of that same tensor to the history. *)
Theorem epochs_no_batches (model : module) (opt : optimizer) (x y : loc)
    (ox oy : tobj) (es : nat) (s : state) :
  randperm_ok →
  heap s !! x = Some ox → shape (value_of ox) ≠ [] →
  heap s !! y = Some oy → shape (value_of oy) ≠ [] →
  epochs model opt x y 0 (S es) None s = Err NameError
  ∧ ∀ l v, item (tval l) = Ok v →
      ∃ s', epochs model opt x y 0 es (Some l) s = Ok (Some l, s')
            ∧ heap s' = heap s
            ∧ history s' = history s ++ replicate es v.
Proof.
  intros Hperm Hox Hsx Hoy Hsy. split.
  - cbn [epochs]. unfold bind at 1.
    destruct (epoch_no_batches model opt x y ox oy None s Hperm Hox Hsx Hoy Hsy)
      as [g ->]. done.
  - intros l v Hv. revert s Hox Hoy.
    induction es as [|es IH]; intros s Hox Hoy.
    + exists s. split; [done|]. split; [done|]. by rewrite app_nil_r.
    + destruct (epoch_no_batches model opt x y ox oy (Some l) s Hperm Hox Hsx Hoy Hsy)
        as [g E]. rewrite Hv in E.
      cbn [epochs]. rewrite (bind_Ok _ _ _ _ _ E).
      destruct (IH (log (EvAppend v)
                      (set_history (history s ++ [v])
                         (log (EvShuffle []) (set_rng g s)))) Hox Hoy)
        as (s' & E' & Hh & Hhi).
      exists s'. split; [exact E'|]. split; [exact Hh|].
      rewrite Hhi. cbn [history set_history log replicate].
      by rewrite <- app_assoc.
Qed.

Lemma matmul_mismatch (a b : tensor) s k k' n :
  shape a = s ++ [k'] → shape b = [k; n] → k' ≠ k →
  matmul a b = Err RuntimeError.
Proof.
  intros Ha Hb Hne. destruct (matmul a b) as [r|e] eqn:E.
  - destruct (matmul_2d_inv a b r k n Hb E) as (s' & Hs' & _).
    rewrite Ha in Hs'. apply app_inj_tail in Hs' as [_ ?]. done.
  - revert E. unfold matmul. rewrite Ha, Hb.
    destruct (s ++ [k']); [by intros [= <-]|].
    destruct (split_left _) as [[[? ?] ?] ?].
    destruct (split_right _) as [[[? ?] ?] ?].
    destruct (_ =? _); [|by intros [= <-]].
    destruct (broadcast_shapes _ _); [done|by intros [= <-]].
Qed.

(** X6. When the last dimension of [x] is not the layer's [input_dim], the
    epoch raises [RuntimeError] at the forward pass of its first batch: the
    shuffle, the two indexings by the permutation and the selection of the
    first batch of [x] succeed and change no object, the call of the model
    on that batch raises [RuntimeError], and with it the first batch and
    the epoch. *)
Theorem epoch_input_mismatch (model : module) (opt : optimizer) (x y : loc)
    (n bs k k' u : nat) (lw lb : loc) (ox oy : tobj) (ry : list nat)
    (loss : option tvar) (s : state) :
  randperm_ok → 0 < n → k' ≠ k →
  linear_layer (heap s) model k u lw lb →
  heap s !! x = Some ox → shape (value_of ox) = [n; bs; k'] →
  heap s !! y = Some oy → shape (value_of oy) = n :: ry →
  ∃ p s1 x_perm y_perm xb,
    randperm n s = Ok (p, s1)
    ∧ heap s1 = heap s
    ∧ index (value_of ox) p = Ok x_perm
    ∧ index (value_of oy) p = Ok y_perm
    ∧ select x_perm 0 = Ok xb
    ∧ call model xb s1 = Err RuntimeError
    ∧ batch model opt x_perm y_perm 0 s1 = Err RuntimeError
    ∧ epoch model opt x y n loss s = Err RuntimeError.
Proof.
  intros Hperm Hn Hk HL Hox Hsx Hoy Hsy.
  pose proof (Hperm (rng s) n) as Hp.
  destruct (randperm_gen (rng s) n) as [p g] eqn:Eg. simpl in Hp.
  destruct (perm_bounds p n Hp) as [Hb Hlen].
  set (s1 := log (EvShuffle p) (set_rng g s)).
  pose proof (index_ok (value_of ox) n [bs; k'] p Hsx Hb) as Hix.
  pose proof (index_ok (value_of oy) n ry p Hsy Hb) as Hiy.
  rewrite Hlen in Hix, Hiy.
  set (x_perm := Tensor (n :: [bs; k']) _) in Hix.
  set (y_perm := Tensor (n :: ry) _) in Hiy.
  pose proof (select_ok x_perm n [bs; k'] 0 eq_refl Hn) as Hsel.
  set (xb := Tensor [bs; k'] _) in Hsel.
  assert (call model xb s1 = Err RuntimeError) as Hcall.
  { unfold call.
    assert (cls model = ClsLinear) as Hc by (by destruct HL as (-> & _)).
    rewrite module_call_Linear by done.
    destruct (linear_layer_getattr _ _ _ _ _ _ HL) as [Hgw Hgb].
    destruct HL as (_ & _ & (ow & How & Hsw & _) & _).
    unfold Linear_forward.
    change (heap s1) with (heap s).
    rewrite (getattr_tensor_param _ _ _ _ _ Hgw How). cbn [rbind].
    unfold lift_op at 1. cbn [tval const].
    erewrite (matmul_mismatch _ _ [bs] k k' u); [done|reflexivity|exact Hsw|exact Hk]. }
  assert (batch model opt x_perm y_perm 0 s1 = Err RuntimeError) as Hbatch.
  { unfold batch. rewrite (bind_Ok _ _ s1 xb s1) by (by apply lift_Ok).
    unfold bind at 1. by rewrite Hcall. }
  exists p, s1, x_perm, y_perm, xb.
  split; [unfold randperm; by rewrite Eg|]. split; [done|].
  split; [exact Hix|]. split; [exact Hiy|]. split; [exact Hsel|].
  split; [exact Hcall|]. split; [exact Hbatch|].
  unfold epoch.
  rewrite (bind_Ok _ _ s p s1) by (unfold randperm; by rewrite Eg).
  rewrite (bind_Ok _ _ s1 (TVar (value_of ox)
             (if requires_grad ox then Leaf x (value_of ox) else Const (value_of ox))) s1)
    by (unfold read; change (heap s1) with (heap s); by rewrite Hox).
  rewrite (bind_Ok _ _ s1 x_perm s1) by (by apply lift_Ok).
  rewrite (bind_Ok _ _ s1 (TVar (value_of oy)
             (if requires_grad oy then Leaf y (value_of oy) else Const (value_of oy))) s1)
    by (unfold read; change (heap s1) with (heap s); by rewrite Hoy).
  rewrite (bind_Ok _ _ s1 y_perm s1) by (by apply lift_Ok).
  destruct n as [|n]; [lia|]. cbn [seq batches].
  unfold bind at 1. unfold bind at 1. by rewrite Hbatch.
Qed.

(** ** Layers side by side and layers inside layers *)

Lemma Linear_forward_ext h h' lw lb x :
  h !! lw = h' !! lw → h !! lb = h' !! lb →
  Linear_forward h (Module ClsLinear [("w", lw); ("b", lb)] [] []) x
  = Linear_forward h' (Module ClsLinear [("w", lw); ("b", lb)] [] []) x.
Proof.
  intros Hw Hb. unfold Linear_forward, getattr_tensor. cbn [getattr assoc
    __dict__ _parameters _modules String.eqb Ascii.eqb Bool.eqb rbind].
  by rewrite Hw, Hb.
Qed.

(** X7. Two layers built one after the other share no parameter: building
    the second leaves the parameters of the first as they are, and a step
    of an optimizer over the second's parameters, in any state, changes no
    prediction of the first. *)
Theorem Linear_layers_disjoint (u1 k1 u2 k2 : nat) (s : state) :
  ∃ m1 s1 m2 s2,
    Linear_init u1 k1 s = Ok (m1, s1)
    ∧ Linear_init u2 k2 s1 = Ok (m2, s2)
    ∧ (∀ l, l ∈ parameters m1 → l ∉ parameters m2)
    ∧ (∀ l, l ∈ parameters m1 → is_Some (heap s1 !! l) ∧ heap s2 !! l = heap s1 !! l)
    ∧ ∀ s3 x, ∃ s4,
        step (Optimizer (parameters m2)) s3 = Ok (tt, s4)
        ∧ module_call (heap s4) m1 x = module_call (heap s3) m1 x.
Proof.
  destruct (Linear_init_frame u1 k1 s) as (lw1 & lb1 & s1 & E1 & HL1 & _ & _ & _ & _).
  destruct (Linear_init_frame u2 k2 s1) as (lw2 & lb2 & s2 & E2 & HL2 & Hw2 & Hb2 & Hfr & _).
  assert (lw1 ≠ lb1) as Hne1 by (by destruct HL1 as (_ & ? & _)).
  assert (lw2 ≠ lb2) as Hne2 by (by destruct HL2 as (_ & ? & _)).
  assert (∀ l, l ∈ [lw1; lb1] → is_Some (heap s1 !! l) ∧ l ≠ lw2 ∧ l ≠ lb2) as Hold.
  { intros l Hl.
    assert (is_Some (heap s1 !! l)) as Hs.
    { destruct HL1 as (_ & _ & (ow & How & _) & (ob & Hob & _)).
      apply elem_of_cons in Hl as [->|Hl]; [by eexists|].
      apply list_elem_of_singleton in Hl as ->. by eexists. }
    split; [done|]. split; intros ->.
    - by apply Hw2, elem_of_dom.
    - by apply Hb2, elem_of_dom. }
  eexists _, s1, _, s2. split; [exact E1|]. split; [exact E2|].
  rewrite !parameters_Linear by done. split_and!.
  - intros l Hl. destruct (Hold l Hl) as (_ & H1 & H2).
    rewrite !not_elem_of_cons. split_and!; try done. apply not_elem_of_nil.
  - intros l Hl. destruct (Hold l Hl) as (Hs & H1 & H2). split; [done|].
    by apply Hfr.
  - intros s3 x. destruct (step_two lw2 lb2 s3 Hne2) as (s4 & E4 & Hfr4 & _).
    exists s4. split; [exact E4|].
    rewrite !module_call_Linear by done.
    destruct (Hold lw1) as (_ & ? & ?); [apply elem_of_cons; by left|].
    destruct (Hold lb1) as (_ & ? & ?);
      [apply elem_of_cons; right; by apply list_elem_of_singleton|].
    apply Linear_forward_ext; by apply Hfr4.
Qed.

(** X8. A MyLambda layer around a module (rather than a function) passes
    its calls on to the module, and the module's parameters are the
    wrapper's: [parameters()] of the wrapper yields them, so an optimizer
    over the wrapper trains the module inside. *)
Theorem MyLambda_delegates (m : module) (h : gmap loc tobj) (x : tvar) :
  ∃ self,
    MyLambda_init (VModule m) = Ok self
    ∧ getattr self "func" = Ok (VModule m)
    ∧ module_call h self x = module_call h m x
    ∧ parameters self = parameters m.
Proof.
  eexists. split; [reflexivity|]. split_and!; try done.
  unfold parameters. cbn. by rewrite app_nil_r.
Qed.

(** X9. After the notebook ran, [history[-1]] of cell 6 is defined, and it
    is the loss of the last batch of the last epoch; on an empty history
    it raises [IndexError]. *)
Theorem final_loss_last_epoch (s : state) :
  randperm_ok →
  (∀ s0, history s0 = [] → final_loss s0 = Err IndexError)
  ∧ ∃ env s' logs e r,
      notebook s = Ok (env, s')
      ∧ trace s' = trace s ++ flat_map events_of_epoch logs
      ∧ length logs = epoches
      ∧ last logs = Some e ∧ last (e_batches e) = Some r
      ∧ loss_of (b_store r) (v_model env) (b_input r) (b_target r)
        = Ok (b_loss r)
      ∧ final_loss s' = Ok (b_loss r, s').
Proof.
  intros Hperm. split.
  { intros s0 E. unfold final_loss. by rewrite E. }
  destruct (notebook_spec s Hperm)
    as (x & y & ox & oy & s1 & lw & lb & logs & s' & _ & _ & En & _ & _ & _ & _ & _
        & _ & _ & _ & _ & _ & Hlen & Hoks & Htr & Hh).
  cbn zeta in *.
  destruct (last logs) as [e|] eqn:El.
  2:{ apply last_None in El. subst logs. cbn in Hlen. unfold epoches in Hlen. lia. }
  rewrite Forall_forall in Hoks.
  destruct (Hoks e (last_Some_elem_of _ _ El)) as (_ & _ & Hl & r & Hr & Ha).
  rewrite Forall_forall in Hl.
  destruct (Hl r (last_Some_elem_of _ _ Hr)) as [_ Hlo].
  eexists _, s', logs, e, r. split; [exact En|].
  split_and!; try done.
  unfold final_loss. rewrite Hh, fmap_last, El. cbn. by rewrite Ha.
Qed.

(** ** Cells 3 and 4: the synthetic data *)

Lemma map_seq_zip_with (g : F → F) (rs ns : list F) N :
  length rs = N → length ns = N →
  map (λ q, fadd (nth q (map g rs) fzero) (nth q ns fzero)) (seq 0 N)
  = zip_with (λ r n, fadd (g r) n) rs ns.
Proof.
  revert ns N. induction rs as [|r rs IH]; intros ns N Hr Hn.
  - simpl in Hr. by subst N.
  - destruct ns as [|n ns]; simpl in *; [lia|]. subst N.
    cbn [seq map]. f_equal. rewrite <- seq_shift, map_map. cbn [nth].
    apply IH; [done|lia].
Qed.

Lemma sample_draw next sh s vs g :
  draw next (numel sh) (rng s) = (vs, g) →
  sample next sh s = Ok (Tensor sh vs, set_rng g s).
Proof. intros E. unfold sample. by rewrite E. Qed.

(** The run of cell 3, with the samples it draws. *)
Lemma make_data_run (nb bs : nat) (s : state) :
  ∃ x y s' rs ns g1 g2,
    make_data nb bs s = Ok ((x, y), s')
    ∧ x ≠ y
    ∧ draw rand_next (numel [nb; bs; 1]) (rng s) = (rs, g1)
    ∧ draw rand_next (numel [nb; bs; 1]) g1 = (ns, g2)
    ∧ rng s' = g2
    ∧ heap s' !! x
      = Some (TObj (Tensor [nb; bs; 1] (map (λ r, fmul r (fconst 100)) rs))
                   None false)
    ∧ heap s' !! y
      = Some (TObj (Tensor [nb; bs; 1]
                      (zip_with (λ r n,
                         fadd (fadd (fmul (fmul r (fconst 100)) (fconst 3))
                                    (fconst 5)) n) rs ns))
                   None false).
Proof.
  pose proof (draw_length rand_next (numel [nb; bs; 1]) (rng s)) as Hlr.
  destruct (draw rand_next (numel [nb; bs; 1]) (rng s)) as [rs g1] eqn:Er.
  pose proof (draw_length rand_next (numel [nb; bs; 1]) g1) as Hln.
  destruct (draw rand_next (numel [nb; bs; 1]) g1) as [ns g2] eqn:En.
  cbn [fst] in Hlr, Hln.
  set (xt := mul_scalar (Tensor [nb; bs; 1] rs) (fconst 100)).
  set (x := fresh (dom (heap s))).
  set (s1 := set_heap (<[x := TObj xt None false]> (heap s)) (set_rng g1 s)).
  set (yt := add_scalar (mul_scalar xt (fconst 3)) (fconst 5)).
  set (y := fresh (dom (heap s1))).
  set (s2 := set_heap (<[y := TObj yt None false]> (heap s1)) s1).
  set (yd := zip_with (λ r n,
               fadd (fadd (fmul (fmul r (fconst 100)) (fconst 3)) (fconst 5)) n)
               rs ns).
  assert (x ∉ dom (heap s)) as Hx by apply is_fresh.
  assert (y ∉ dom (heap s1)) as Hy by apply is_fresh.
  cbn [heap s1 set_heap] in Hy. rewrite dom_insert_L in Hy.
  assert (x ≠ y) as Hne by set_solver.
  assert (tadd yt (Tensor [nb; bs; 1] ns) = Ok (Tensor [nb; bs; 1] yd)) as Ed.
  { rewrite (tadd_same_data yt (Tensor [nb; bs; 1] ns) eq_refl).
    change (shape yt) with [nb; bs; 1]. f_equal. f_equal.
    assert (data yt
            = map (λ r, fadd (fmul (fmul r (fconst 100)) (fconst 3)) (fconst 5)) rs)
      as Hyt
      by (unfold yt, xt, add_scalar, mul_scalar; cbn [data]; by rewrite !map_map).
    unfold at_. rewrite Hyt. cbn [data].
    by apply (map_seq_zip_with
                (λ r, fadd (fmul (fmul r (fconst 100)) (fconst 3)) (fconst 5))). }
  set (s3 := set_heap (<[y := TObj (Tensor [nb; bs; 1] yd) None false]>
                         (heap (set_rng g2 s2))) (set_rng g2 s2)).
  exists x, y, s3, rs, ns, g1, g2. split_and!; try done.
  - unfold make_data.
    rewrite (bind_Ok _ _ s (Tensor [nb; bs; 1] rs) (set_rng g1 s))
      by (by apply sample_draw).
    rewrite (bind_Ok _ _ (set_rng g1 s) x s1) by done.
    rewrite (bind_Ok _ _ s1 y s2) by done.
    rewrite (bind_Ok _ _ s2 (Tensor [nb; bs; 1] ns) (set_rng g2 s2))
      by (by apply sample_draw).
    rewrite (bind_Ok _ _ (set_rng g2 s2) tt s3); [done|].
    unfold iadd. cbn [heap set_rng s2 set_heap]. rewrite lookup_insert_eq.
    cbn [value_of]. rewrite Ed. change (shape yt) with [nb; bs; 1].
    by rewrite bool_decide_eq_true_2.
  - cbn. by rewrite lookup_insert_ne, lookup_insert_ne, lookup_insert_eq.
  - cbn. by rewrite lookup_insert_eq.
Qed.

(** X10. Cell 3 builds the data it announces: with [rs] the [n * bs]
    samples drawn first and [ns] the [n * bs] samples drawn next from the
    same generator, [x] holds [r * 100] and [y] holds
    [(x * 3 + 5) + noise], scalar by scalar; both have shape
    [(n, bs, 1)] and neither requires grad. *)
Theorem make_data_relation (nb bs : nat) (s : state) :
  ∃ x y s' rs ns g1 g2,
    make_data nb bs s = Ok ((x, y), s')
    ∧ x ≠ y
    ∧ draw rand_next (numel [nb; bs; 1]) (rng s) = (rs, g1)
    ∧ draw rand_next (numel [nb; bs; 1]) g1 = (ns, g2)
    ∧ rng s' = g2
    ∧ heap s' !! x
      = Some (TObj (Tensor [nb; bs; 1] (map (λ r, fmul r (fconst 100)) rs))
                   None false)
    ∧ heap s' !! y
      = Some (TObj (Tensor [nb; bs; 1]
                      (zip_with (λ r n,
                         fadd (fadd (fmul (fmul r (fconst 100)) (fconst 3))
                                    (fconst 5)) n) rs ns))
                   None false).
Proof. apply make_data_run. Qed.

Lemma select3_first (t : tensor) nb bs e v :
  shape t = [nb; bs; 1] → 0 < nb → e < bs → data t !! e = Some v →
  select3 t 0 e 0 = Ok (Tensor [] [v]).
Proof.
  intros Hs Hnb He Hv. unfold select3.
  rewrite (select_ok t nb [bs; 1] 0 Hs Hnb). cbn [rbind].
  erewrite (select_ok _ bs [1] e); [|reflexivity|done]. cbn [rbind].
  erewrite (select_ok _ 1 [] 0); [|reflexivity|lia].
  f_equal. f_equal. unfold row_data. cbn [data numel foldr].
  rewrite !Nat.mul_1_r. cbn [Nat.mul]. rewrite !drop_0.
  assert (take bs (data t) !! e = Some v) as Hv' by (by rewrite lookup_take_lt).
  by rewrite (drop_S _ _ _ Hv').
Qed.

(** X11. Cell 4 on the data of cell 3, for any example of the first batch:
    with [a = x * 3 + 5] for the example's input [x] and [n] the noise
    sample added to the example's target, it computes [a - (a + n)], a
    0-D tensor that depends on no other example. *)
Theorem noise_of_example_value (nb bs example : nat) (s : state) :
  0 < nb → example < bs →
  ∃ x y s' rs ns g1 g2 r n,
    make_data nb bs s = Ok ((x, y), s')
    ∧ draw rand_next (numel [nb; bs; 1]) (rng s) = (rs, g1)
    ∧ draw rand_next (numel [nb; bs; 1]) g1 = (ns, g2)
    ∧ rs !! example = Some r ∧ ns !! example = Some n
    ∧ noise_of_example x y example s'
      = Ok (Tensor []
              [let a := fadd (fmul (fmul r (fconst 100)) (fconst 3)) (fconst 5) in
               fsub a (fadd a n)], s').
Proof.
  intros Hnb He.
  destruct (make_data_run nb bs s)
    as (x & y & s' & rs & ns & g1 & g2 & Ed & Hne & Er & En & _ & Hx & Hy).
  pose proof (draw_length rand_next (numel [nb; bs; 1]) (rng s)) as Hlr.
  pose proof (draw_length rand_next (numel [nb; bs; 1]) g1) as Hln.
  rewrite Er in Hlr. rewrite En in Hln. cbn [fst numel foldr] in Hlr, Hln.
  destruct (lookup_lt_is_Some_2 rs example) as [r Hr]; [nia|].
  destruct (lookup_lt_is_Some_2 ns example) as [n Hn]; [nia|].
  exists x, y, s', rs, ns, g1, g2, r, n. split_and!; try done.
  unfold noise_of_example.
  erewrite (bind_Ok _ _ s' _ s') by (unfold read; by rewrite Hx).
  erewrite (bind_Ok _ _ s' (Tensor [] [fmul r (fconst 100)]) s').
  2:{ apply lift_Ok. apply (select3_first _ nb bs); try done.
      cbn [tval value_of data]. rewrite list_lookup_fmap.
      change (@fmap list _ _ _ ?f ?l) with (f <$> l). by rewrite Hr. }
  erewrite (bind_Ok _ _ s' _ s') by (unfold read; by rewrite Hy).
  erewrite (bind_Ok _ _ s' (Tensor [] [_]) s').
  2:{ apply lift_Ok. apply (select3_first _ nb bs); try done.
      cbn [tval value_of data]. by rewrite lookup_zip_with, Hr, Hn. }
  reflexivity.
Qed.

(** ** One pass over the data per epoch *)

Lemma steps_of_app tr1 tr2 : steps_of (tr1 ++ tr2) = steps_of tr1 + steps_of tr2.
Proof. unfold steps_of. by rewrite List.filter_app, length_app. Qed.

Lemma steps_of_epoch e : steps_of (events_of_epoch e) = length (e_batches e).
Proof.
  unfold events_of_epoch.
  change (EvShuffle (e_perm e) :: ?l) with ([EvShuffle (e_perm e)] ++ l).
  rewrite !steps_of_app.
  assert (steps_of (flat_map events_of_batch (e_batches e))
          = length (e_batches e)) as ->; [|unfold steps_of; cbn; lia].
  induction (e_batches e) as [|r l IH]; [done|].
  cbn [flat_map]. rewrite steps_of_app, IH. by cbn.
Qed.

Lemma batches_are_rows (xt yt : tensor) n rx ry p recs :
  shape xt = n :: rx → shape yt = n :: ry →
  Forall2 (batch_is xt yt) p recs →
  (λ r, (b_input r, b_target r)) <$> recs
  = (λ i, (row_of xt i, row_of yt i)) <$> p.
Proof.
  intros Hx Hy. induction 1 as [|i r p recs [Bx By] _ IH]; [done|].
  cbn [fmap list_fmap]. f_equal; [|exact IH].
  unfold select in Bx, By. rewrite Hx in Bx. rewrite Hy in By.
  destruct (i <? n); [|done]. injection Bx as <-. injection By as <-.
  unfold row_of. by rewrite Hx, Hy.
Qed.

(** X12. Every epoch of the notebook is one pass over the data: its
    batches, as pairs of input and target, are the [n_batches] rows of [x]
    paired with the rows of [y] of the same index, each pair exactly once
    (a permutation of the dataset).  In all, the loop takes
    [epoches * n_batches] (200 times 64) optimizer steps. *)
Theorem epoch_is_one_pass (s : state) :
  randperm_ok →
  ∃ env s1 s' logs ox oy,
    make_data n_batches batch_size s = Ok ((v_x env, v_y env), s1)
    ∧ notebook s = Ok (env, s')
    ∧ heap s1 !! v_x env = Some ox ∧ heap s1 !! v_y env = Some oy
    ∧ trace s' = trace s ++ flat_map events_of_epoch logs
    ∧ length logs = epoches
    ∧ Forall (λ e,
        Permutation ((λ r, (b_input r, b_target r)) <$> e_batches e)
          ((λ i, (row_of (value_of ox) i, row_of (value_of oy) i))
             <$> seq 0 n_batches)) logs
    ∧ steps_of (trace s') = steps_of (trace s) + epoches * n_batches.
Proof.
  intros Hperm.
  destruct (notebook_spec s Hperm)
    as (x & y & ox & oy & s1 & lw & lb & logs & s' & Ed & _ & En & _ & Hox & Hoy & Hsx & Hsy
        & _ & _ & _ & _ & _ & Hlen & Hoks & Htr & _).
  cbn zeta in *.
  exists (Env x y (Module ClsLinear [("w", lw); ("b", lb)] [] []) (Optimizer [lw; lb])),
    s1, s', logs, ox, oy.
  split; [exact Ed|]. split; [exact En|]. split_and!; try done.
  - eapply Forall_impl; [exact Hoks|]. intros e (Hp & Hb & _).
    rewrite (batches_are_rows _ _ _ _ _ _ _ Hsx Hsy Hb). by apply fmap_Permutation.
  - rewrite Htr, steps_of_app. f_equal.
    assert (steps_of (flat_map events_of_epoch logs) = length logs * n_batches) as ->.
    { clear -Hoks. induction Hoks as [|e logs He _ IH]; [done|].
      cbn [flat_map length]. rewrite steps_of_app, IH, steps_of_epoch.
      rewrite (epoch_ok_batches _ _ _ _ _ _ _ He). lia. }
    by rewrite Hlen.
Qed.

End Proofs.

(** * The properties at the instance *)

#[local] Existing Instance Zscalar.
#[local] Existing Instance Zframework.

Lemma Z_randperm_ok : @randperm_ok Zscalar Zframework.
Proof.
  intros g n. simpl. unfold rotate.
  rewrite Permutation_app_comm. by rewrite take_drop.
Qed.

Lemma Zlayer_ok : linear_layer Zstore Zlayer 1 1 0 1.
Proof.
  split; [done|]. split; [done|].
  split; [exists Zw|exists Zb]; by split_and!.
Qed.

Example double_call :
  rbind double (λ m,
    rmap tval (module_call ∅ m (const (@Tensor Zscalar [2] [1%Z; 2%Z]))))
  = Ok (@Tensor Zscalar [2] [2%Z; 4%Z]).
Proof. reflexivity. Qed.

Example Zlayer_forward :
  rmap tval (module_call Zstore Zlayer Zinput)
  = Ok (@Tensor Zscalar [2; 1] [35%Z; 65%Z]).
Proof. reflexivity. Qed.

Lemma Linear_forward_affine_witness :
  module_call Zstore Zlayer Zinput = Linear_forward Zstore Zlayer Zinput
  ∧ rmap tval (Linear_forward Zstore Zlayer Zinput)
    = rbind (matmul (tval Zinput) (value_of Zw)) (λ xw, tadd xw (value_of Zb)).
Proof.
  apply (Linear_forward_affine Zstore Zlayer 0 1 Zw Zb Zinput); reflexivity.
Defined.

Lemma Linear_forward_in_defined_witness :
  linear_layer Zstore Zlayer 1 1 0 1
  ∧ (∀ x : @tvar Zscalar,
       (is_Ok (Linear_forward_in Zstore Zlayer (Same x))
        ↔ ∃ s, input_shape (Same x) = s ++ [1])
       ∧ (∀ s, input_shape (Same x) = s ++ [1] →
            ∃ r, Linear_forward_in Zstore Zlayer (Same x) = Ok r
                 ∧ shape (tval r) = s ++ [1]))
  ∧ (∀ sh, Linear_forward_in Zstore Zlayer (Other sh) = Err RuntimeError).
Proof.
  split; [exact Zlayer_ok|].
  exact (Linear_forward_in_defined Zstore Zlayer 1 1 0 1 Zlayer_ok).
Defined.

Lemma MyLambda_parameters_witness :
  ∃ self,
    MyLambda_init (VFunction Zdouble) = Ok self
    ∧ parameters self = []
    ∧ Adam (parameters self) = Err ValueError
    ∧ ∃ s', step (Optimizer [0; 1]) Zstate4 = Ok (tt, s')
            ∧ module_call (heap s') self Zinput
              = module_call (heap Zstate4) self Zinput.
Proof.
  destruct (proj1 MyLambda_parameters Zdouble)
    as (self & E & _ & _ & _ & Hp & Ha & H).
  exists self. split; [exact E|]. split; [exact Hp|]. split; [exact Ha|].
  exact (H (Optimizer [0; 1]) Zstate4 Zinput (λ _ _, eq_refl)).
Defined.

(** The layer with one input, on a batch of two rows of one scalar that is
    not of the parameters' element type (an int64 tensor of shape
    [(2, 1)]): the last dimension has size [input_dim], and [forward] is
    not defined. *)
Lemma Linear_forward_other_dtype :
  linear_layer Zstore Zlayer 1 1 0 1
  ∧ (∃ s, input_shape (@Other Zscalar [2; 1]) = s ++ [1])
  ∧ ¬ is_Ok (Linear_forward_in Zstore Zlayer (Other [2; 1])).
Proof.
  split; [exact Zlayer_ok|]. split; [by exists [2]|].
  intros [r Hr]. discriminate Hr.
Qed.

(** [MyLambda] around a callable that is a module, and around a function
    that closes over a Parameter.  Around the layer [Zlayer], [func] is
    registered as a submodule: [parameters()] yields the two parameters of
    the layer, an optimizer is built over them, and its step changes what
    the wrapper returns.  Around [Zreader], [parameters()] yields nothing,
    and the step of an optimizer that holds [w] still changes what the
    wrapper returns. *)
Lemma MyLambda_func_with_parameters :
  (∃ self,
     MyLambda_init (VModule Zlayer) = Ok self
     ∧ _modules self = [("func", Zlayer)] ∧ __dict__ self = []
     ∧ parameters self = [0; 1]
     ∧ Adam (parameters self) = Ok (Optimizer [0; 1])
     ∧ ∃ s', step (Optimizer [0; 1]) Zstate4 = Ok (tt, s')
             ∧ module_call (heap s') self Zinput
               ≠ module_call (heap Zstate4) self Zinput)
  ∧ (∃ self,
       MyLambda_init (VFunction Zreader) = Ok self
       ∧ parameters self = []
       ∧ ∃ s', step (Optimizer [0; 1]) Zstate4 = Ok (tt, s')
               ∧ module_call (heap s') self Zinput
                 ≠ module_call (heap Zstate4) self Zinput).
Proof.
  split.
  - eexists. split; [reflexivity|]. split; [reflexivity|].
    split; [reflexivity|]. split; [reflexivity|]. split; [reflexivity|].
    eexists. split; [reflexivity|]. vm_compute. discriminate.
  - eexists. split; [reflexivity|]. split; [reflexivity|].
    eexists. split; [reflexivity|]. vm_compute. discriminate.
Qed.

Lemma training_loop_order_witness :
  @randperm_ok Zscalar Zframework
  ∧ ∃ env s' logs ox oy,
      notebook Zstate0 = Ok (env, s')
      ∧ heap s' !! v_x env = Some ox ∧ heap s' !! v_y env = Some oy
      ∧ length logs = epoches
      ∧ trace s' = trace Zstate0 ++ flat_map events_of_epoch logs
      ∧ Forall (λ e,
          length (e_batches e) = n_batches
          ∧ Forall2 (batch_is (value_of ox) (value_of oy))
              (e_perm e) (e_batches e)
          ∧ Forall (λ r,
              loss_of (b_store r) (v_model env) (b_input r) (b_target r)
              = Ok (b_loss r)) (e_batches e)) logs.
Proof.
  split; [exact Z_randperm_ok|].
  exact (training_loop_order Zstate0 Z_randperm_ok).
Defined.

Lemma shuffle_keeps_pairs_witness :
  @randperm_ok Zscalar Zframework
  ∧ ∃ env s1 s' logs ox oy,
      make_data n_batches batch_size Zstate0 = Ok ((v_x env, v_y env), s1)
      ∧ notebook Zstate0 = Ok (env, s')
      ∧ heap s1 !! v_x env = Some ox ∧ heap s1 !! v_y env = Some oy
      ∧ length logs = epoches
      ∧ trace s' = trace Zstate0 ++ flat_map events_of_epoch logs
      ∧ Forall (λ e,
          Permutation (e_perm e) (seq 0 n_batches)
          ∧ Forall2 (batch_is (value_of ox) (value_of oy))
              (e_perm e) (e_batches e)) logs.
Proof.
  split; [exact Z_randperm_ok|].
  exact (shuffle_keeps_pairs Zstate0 Z_randperm_ok).
Defined.

Lemma history_last_batch_loss_witness :
  @randperm_ok Zscalar Zframework
  ∧ ∃ env s' logs,
      notebook Zstate0 = Ok (env, s')
      ∧ length (history s') = 200
      ∧ length logs = epoches
      ∧ trace s' = trace Zstate0 ++ flat_map events_of_epoch logs
      ∧ Forall2 (λ v e,
          e_appended e = v
          ∧ length (e_batches e) = n_batches
          ∧ ∃ r, last (e_batches e) = Some r
                 ∧ v = b_loss r
                 ∧ loss_of (b_store r) (v_model env) (b_input r) (b_target r)
                   = Ok v) (history s') logs.
Proof.
  split; [exact Z_randperm_ok|].
  exact (history_last_batch_loss Zstate0 Z_randperm_ok).
Defined.

Lemma training_frame_witness :
  @randperm_ok Zscalar Zframework
  ∧ ∃ env s1 s',
      make_data n_batches batch_size Zstate0 = Ok ((v_x env, v_y env), s1)
      ∧ notebook Zstate0 = Ok (env, s')
      ∧ params (v_optimizer env) = parameters (v_model env)
      ∧ (∀ l o, heap s1 !! l = Some o → heap s' !! l = Some o)
      ∧ heap s' !! v_x env = heap s1 !! v_x env
      ∧ heap s' !! v_y env = heap s1 !! v_y env.
Proof.
  split; [exact Z_randperm_ok|].
  destruct (training_frame Zstate0 Z_randperm_ok)
    as (env & s1 & s' & lw & lb & ox & oy & Ed & _ & En & Hp & Ho & _ & Hk
        & Hx1 & Hx2 & Hy1 & Hy2).
  exists env, s1, s'.
  split; [exact Ed|]. split; [exact En|].
  split; [exact (eq_trans Ho (eq_sym Hp))|]. split; [exact Hk|].
  split; [exact (eq_trans Hx2 (eq_sym Hx1))|exact (eq_trans Hy2 (eq_sym Hy1))].
Defined.

Lemma notebook_model_is_Linear_witness :
  @randperm_ok Zscalar Zframework
  ∧ (∀ a b : Z, (a * b = b * a)%Z)
  ∧ ∃ env s' lw lb w0 b0,
      notebook Zstate0 = Ok (env, s')
      ∧ linear_layer (heap s') (v_model env) 1 1 lw lb
      ∧ ∀ x0 : Z,
          rmap tval (module_call (heap s') (v_model env)
                       (const (@Tensor Zscalar [1] [x0])))
          = Ok (@Tensor Zscalar [1] [(w0 * x0 + b0)%Z]).
Proof.
  split; [exact Z_randperm_ok|]. split; [exact Z.mul_comm|].
  destruct (notebook_model_is_Linear Zstate0 Z_randperm_ok Z.mul_comm)
    as (env & s1 & s2 & s' & lw & lb & ow & ob & w0 & b0 & En & _ & _ & HL & _ & _ & _ & _ & Hf).
  exists env, s', lw, lb, w0, b0.
  split; [exact En|]. split; [exact HL|exact Hf].
Defined.

(** ** The further properties at the instance *)

Lemma Zstate2_layer : linear_layer (heap Zstate2) Zlayer 1 1 0 1.
Proof.
  split; [done|]. split; [done|].
  split; [exists Zw|exists Zb]; by split_and!.
Qed.

Lemma Zdata_not_param (l : loc) : l = 2 ∨ l = 3 → l ∉ [0; 1].
Proof.
  intros [-> | ->]; rewrite !not_elem_of_cons; split_and!; try done;
    apply not_elem_of_nil.
Qed.

Lemma Linear_forward_entries_witness :
  linear_layer Zstore Zlayer 1 1 0 1
  ∧ ∃ r,
      Linear_forward Zstore Zlayer Zinput = Ok r
      ∧ shape (tval r) = [2; 1] ∧ wf_tensor (tval r)
      ∧ ∀ i j, i < 2 → j < 1 →
          at_ (tval r) (i * 1 + j)
          = fadd (fmul (at_ (tval Zinput) i) (at_ (value_of Zw) j))
                 (at_ (value_of Zb) j).
Proof.
  split; [exact Zlayer_ok|].
  exact (Linear_forward_entries Zstore Zlayer 1 0 1 Zw Zb Zinput 2
           Zlayer_ok eq_refl eq_refl eq_refl).
Defined.

Lemma Linear_forward_rowwise_witness :
  linear_layer Zstore Zlayer 1 1 0 1
  ∧ ∃ r xi ri,
      Linear_forward Zstore Zlayer Zinput = Ok r
      ∧ select (tval Zinput) 1 = Ok xi
      ∧ Linear_forward Zstore Zlayer (const xi) = Ok ri
      ∧ select (tval r) 1 = Ok (tval ri).
Proof.
  split; [exact Zlayer_ok|].
  exact (Linear_forward_rowwise Zstore Zlayer 1 0 1 Zinput 2 1
           Zlayer_ok eq_refl (le_n 2)).
Defined.


Lemma epochs_run_witness :
  @randperm_ok Zscalar Zframework
  ∧ linear_layer (heap Zstate2) Zlayer 1 1 0 1
  ∧ ∃ loss' s' vs,
      epochs Zlayer (Optimizer [0; 1]) 2 3 1 3 None Zstate2 = Ok (loss', s')
      ∧ linear_layer (heap s') Zlayer 1 1 0 1
      ∧ (∀ l, l ≠ 0 → l ≠ 1 → heap s' !! l = heap Zstate2 !! l)
      ∧ history s' = history Zstate2 ++ vs ∧ length vs = 3
      ∧ length (trace s') = length (trace Zstate2) + 3 * (5 * 1 + 2).
Proof.
  split; [exact Z_randperm_ok|]. split; [exact Zstate2_layer|].
  exact (epochs_run Zlayer (Optimizer [0; 1]) 2 3 1 2 1 1 0 1
           (TObj Zx_perm None false) (TObj Zy_perm None false) 3 None Zstate2
           Z_randperm_ok (le_n 1) eq_refl Zstate2_layer
           (Zdata_not_param 2 (or_introl eq_refl))
           (Zdata_not_param 3 (or_intror eq_refl))
           eq_refl eq_refl eq_refl eq_refl eq_refl eq_refl eq_refl eq_refl).
Defined.

Lemma epochs_no_batches_witness :
  @randperm_ok Zscalar Zframework
  ∧ epochs Zlayer (Optimizer [0; 1]) 2 3 0 3 None Zstate2 = Err NameError
  ∧ ∃ s', epochs Zlayer (Optimizer [0; 1]) 2 3 0 2 (Some Zloss) Zstate2
          = Ok (Some Zloss, s')
          ∧ heap s' = heap Zstate2
          ∧ history s' = history Zstate2 ++ [7%Z; 7%Z].
Proof.
  split; [exact Z_randperm_ok|].
  assert (shape Zx_perm ≠ []) as Hx by discriminate.
  assert (shape Zy_perm ≠ []) as Hy by discriminate.
  split.
  - exact (proj1 (epochs_no_batches Zlayer (Optimizer [0; 1]) 2 3
                    (TObj Zx_perm None false) (TObj Zy_perm None false)
                    2 Zstate2 Z_randperm_ok eq_refl Hx eq_refl Hy)).
  - exact (proj2 (epochs_no_batches Zlayer (Optimizer [0; 1]) 2 3
                    (TObj Zx_perm None false) (TObj Zy_perm None false)
                    2 Zstate2 Z_randperm_ok eq_refl Hx eq_refl Hy)
             Zloss 7%Z eq_refl).
Defined.

Lemma epoch_input_mismatch_witness :
  @randperm_ok Zscalar Zframework
  ∧ linear_layer (heap Zstate3) Zlayer 1 1 0 1
  ∧ ∃ p s1 x_perm y_perm xb,
      randperm 1 Zstate3 = Ok (p, s1)
      ∧ heap s1 = heap Zstate3
      ∧ index Zx_wide p = Ok x_perm
      ∧ index Zy_perm p = Ok y_perm
      ∧ select x_perm 0 = Ok xb
      ∧ call Zlayer xb s1 = Err RuntimeError
      ∧ batch Zlayer (Optimizer [0; 1]) x_perm y_perm 0 s1 = Err RuntimeError
      ∧ epoch Zlayer (Optimizer [0; 1]) 2 3 1 None Zstate3 = Err RuntimeError.
Proof.
  split; [exact Z_randperm_ok|]. split; [exact Zstate2_layer|].
  refine (epoch_input_mismatch Zlayer (Optimizer [0; 1]) 2 3 1 2 1 2 1 0 1
            (TObj Zx_wide None false) (TObj Zy_perm None false) [2; 1] None Zstate3
            Z_randperm_ok (le_n 1) _ Zstate2_layer eq_refl eq_refl eq_refl eq_refl).
  discriminate.
Defined.

Lemma final_loss_last_epoch_witness :
  @randperm_ok Zscalar Zframework
  ∧ ∃ env s' logs e r,
      notebook Zstate0 = Ok (env, s')
      ∧ length logs = epoches
      ∧ last logs = Some e ∧ last (e_batches e) = Some r
      ∧ final_loss s' = Ok (b_loss r, s').
Proof.
  split; [exact Z_randperm_ok|].
  destruct (final_loss_last_epoch Zstate0 Z_randperm_ok)
    as (_ & env & s' & logs & e & r & En & _ & Hlen & El & Er & _ & Ef).
  exists env, s', logs, e, r.
  split; [exact En|]. split; [exact Hlen|]. split; [exact El|].
  split; [exact Er|exact Ef].
Defined.

Lemma noise_of_example_value_witness :
  0 < 1 ∧ 5 < 6
  ∧ ∃ x y s' rs ns g1 g2 r n,
      make_data 1 6 Zstate0 = Ok ((x, y), s')
      ∧ draw rand_next (numel [1; 6; 1]) (rng Zstate0) = (rs, g1)
      ∧ draw rand_next (numel [1; 6; 1]) g1 = (ns, g2)
      ∧ rs !! 5 = Some r ∧ ns !! 5 = Some n
      ∧ noise_of_example x y 5 s'
        = Ok (Tensor []
                [let a := fadd (fmul (fmul r (fconst 100)) (fconst 3)) (fconst 5) in
                 fsub a (fadd a n)], s').
Proof.
  split; [exact (le_n 1)|]. split; [exact (le_n 6)|].
  exact (noise_of_example_value 1 6 5 Zstate0 (le_n 1) (le_n 6)).
Defined.

Lemma epoch_is_one_pass_witness :
  @randperm_ok Zscalar Zframework
  ∧ ∃ env s1 s' logs ox oy,
      make_data n_batches batch_size Zstate0 = Ok ((v_x env, v_y env), s1)
      ∧ notebook Zstate0 = Ok (env, s')
      ∧ heap s1 !! v_x env = Some ox ∧ heap s1 !! v_y env = Some oy
      ∧ trace s' = trace Zstate0 ++ flat_map events_of_epoch logs
      ∧ length logs = epoches
      ∧ Forall (λ e,
          Permutation ((λ r, (b_input r, b_target r)) <$> e_batches e)
            ((λ i, (row_of (value_of ox) i, row_of (value_of oy) i))
               <$> seq 0 n_batches)) logs
      ∧ steps_of (trace s') = steps_of (trace Zstate0) + epoches * n_batches.
Proof.
  split; [exact Z_randperm_ok|].
  exact (epoch_is_one_pass Zstate0 Z_randperm_ok).
Defined.
